(** * The listing pipeline of [real_estate_dashboard.py]

    A shallow embedding of the data pipeline of the dashboard: the
    normalisation of the raw listings ([process_listings_data]), the sidebar
    filters applied in [main], the per-neighbourhood statistics of
    [create_neighborhood_chart], and the sort-and-truncate step that feeds the
    listings table.  Around them, the other computations of [main] on the
    frame: the default selections of the sidebar, the metrics of the view,
    and the bars of [create_bedroom_analysis_chart].

    The program is written against pandas.  A [DataFrame] is modelled as a set
    of column names together with the list of its rows, each row a finite map
    from column name to cell; a missing entry of a row reads as [NaN], which
    is how pandas fills the holes of a frame built from a list of records.
    Floating-point cells are modelled by exact rationals, so binary64
    rounding and the infinities are outside the model.  Python exceptions are
    values of the type [error], threaded through the [result] monad. *)

From Stdlib Require Import QArith Qround Qabs Lqa Ascii.
From stdpp Require Import gmap strings list sorting.

(** ** Cells and exceptions *)

(** A cell of a frame: pandas' missing value (Python [None] and [nan] alike),
    a number, or a Python string.  A [string] is read as a sequence of code
    points below 256. *)
Inductive value :=
  | NaN
  | Num (q : Q)
  | Str (s : string).

Definition isna (v : value) : bool :=
  match v with NaN => true | _ => false end.

Definition is_num (v : value) : bool :=
  match v with Num _ => true | _ => false end.

Definition is_str (v : value) : bool :=
  match v with Str _ => true | _ => false end.

(** A Python float that may be [nan]. *)
Definition of_float (x : option Q) : value :=
  match x with Some q => Num q | None => NaN end.

Inductive error :=
  | KeyError (key : string)
  | AttributeError
  | TypeError
  | IndexError
  | ValueError.

Inductive result (A : Type) :=
  | Ok (a : A)
  | Err (e : error).
Arguments Ok {A} a.
Arguments Err {A} e.

#[global] Instance result_ret : MRet result := λ A a, Ok a.
#[global] Instance result_bind : MBind result := λ A B f m,
  match m with Ok a => f a | Err e => Err e end.
#[global] Instance result_fmap : FMap result := λ A B f m,
  match m with Ok a => Ok (f a) | Err e => Err e end.

(** ** String operations used by the normalisation *)

(** The character class of the pattern [[$,+]]. *)
Definition is_price_symbol (c : ascii) : bool :=
  Ascii.eqb c "$" || Ascii.eqb c "," || Ascii.eqb c "+".

(** [re.sub(r'[$,+]', '', s)]: every character of the class is removed. *)
Fixpoint re_sub_price (s : string) : string :=
  match s with
  | EmptyString => EmptyString
  | String c s' =>
      if is_price_symbol c then re_sub_price s' else String c (re_sub_price s')
  end.

(** The longest prefix without a comma, and what follows it: the greedy
    [[^,]+] of the pattern [([^,]+),]. *)
Fixpoint span_non_comma (s : string) : string * string :=
  match s with
  | EmptyString => (EmptyString, EmptyString)
  | String c s' =>
      if Ascii.eqb c ","
      then (EmptyString, s)
      else let '(run, rest) := span_non_comma s' in (String c run, rest)
  end.

(** The pattern [([^,]+),] matched at the start of [s]; the result is
    group 1.  After the longest run the next character is a comma or the end
    of the string; a shorter run is followed by a character that is not a
    comma, so backtracking never finds a match the longest run misses. *)
Definition re_match_neighborhood (s : string) : option string :=
  match span_non_comma s with
  | (String c run, String _ _) => Some (String c run)
  | _ => None
  end.

(** [re.search(r'([^,]+),', s)]: the leftmost start position that matches. *)
Fixpoint re_search_neighborhood (s : string) : option string :=
  match re_match_neighborhood s with
  | Some g => Some g
  | None =>
      match s with
      | EmptyString => None
      | String _ s' => re_search_neighborhood s'
      end
  end.

(** [str.isspace] on the code points below 256. *)
Definition isspace (c : ascii) : bool :=
  let n := nat_of_ascii c in
  (9 <=? n)%nat && (n <=? 13)%nat || (28 <=? n)%nat && (n <=? 32)%nat
  || (n =? 133)%nat || (n =? 160)%nat.

Fixpoint lstrip (s : string) : string :=
  match s with
  | EmptyString => EmptyString
  | String c s' => if isspace c then lstrip s' else s
  end.

Fixpoint rstrip (s : string) : string :=
  match s with
  | EmptyString => EmptyString
  | String c s' =>
      match rstrip s' with
      | EmptyString => if isspace c then EmptyString else String c EmptyString
      | t => String c t
      end
  end.

(** [str.strip()]. *)
Definition strip (s : string) : string := rstrip (lstrip s).

(** The element-wise string methods of a Series ([Series.str]): a cell that
    is not a string yields [NaN]. *)
Definition str_replace_price (v : value) : value :=
  match v with Str s => Str (re_sub_price s) | _ => NaN end.

Definition str_extract_neighborhood (v : value) : value :=
  match v with
  | Str s => match re_search_neighborhood s with Some g => Str g | None => NaN end
  | _ => NaN
  end.

Definition str_strip (v : value) : value :=
  match v with Str s => Str (strip s) | _ => NaN end.

(** The neighbourhood of one address:
    [.str.extract(r'([^,]+),')[0].str.strip()] on one cell. *)
Definition extract_neighborhood (address : value) : value :=
  str_strip (str_extract_neighborhood address).

(** ** Data frames *)

Record DataFrame := {
  columns : gset string;
  rows : list (gmap string value)
}.

(** The cell of row [r] in column [c]. *)
Definition cell (c : string) (r : gmap string value) : value :=
  default NaN (r !! c).

(** [pd.DataFrame()] *)
Definition empty_frame : DataFrame := {| columns := ∅; rows := [] |}.

(** [pd.DataFrame(listings)]: the columns are the keys that occur in some
    record. *)
Definition DataFrame_of_records (listings : list (gmap string value)) : DataFrame :=
  {| columns := ⋃ (dom <$> listings); rows := listings |}.

(** [df[c]] *)
Definition getitem (df : DataFrame) (c : string) : result (list value) :=
  if decide (c ∈ columns df) then Ok (cell c <$> rows df) else Err (KeyError c).

(** [df[c] = col] *)
Definition setitem (df : DataFrame) (c : string) (col : list value) : DataFrame :=
  {| columns := {[c]} ∪ columns df;
     rows := zip_with (λ r v, <[c:=v]> r) (rows df) col |}.

(** [df.empty] *)
Definition empty (df : DataFrame) : bool :=
  match rows df with [] => true | _ => bool_decide (columns df = ∅) end.

(** A column built from records that holds a number and no string has a
    numeric dtype, its missing values being [nan]; pandas refuses the [.str]
    accessor on such a column.  A column with a string has the object dtype.
    A column of missing values only is read here as a column of [None], which
    has the object dtype as well; pandas gives it a numeric dtype when one of
    its missing values is a float [nan], which the cells do not show. *)
Definition is_numeric_dtype (col : list value) : bool :=
  existsb is_num col && negb (existsb is_str col).

Definition str_accessor (col : list value) : result (list value) :=
  if is_numeric_dtype col then Err AttributeError else Ok col.

(** [df[mask]] *)
Fixpoint select {A} (mask : list bool) (l : list A) : list A :=
  match mask, l with
  | b :: mask', x :: l' => if b then x :: select mask' l' else select mask' l'
  | _, _ => []
  end.

Definition boolean_index (df : DataFrame) (mask : list bool) : DataFrame :=
  {| columns := columns df; rows := select mask (rows df) |}.

(** [df.head(n)] for [n >= 0]. *)
Definition head (df : DataFrame) (n : nat) : DataFrame :=
  {| columns := columns df; rows := take n (rows df) |}.

(** ** Normalisation: [process_listings_data] *)

Section Coercion.

(** Python's [float(s)] on a string: [None] when it raises [ValueError],
    [Some None] for a spelling of [nan], [Some (Some q)] for a number. *)
Variable py_float : string → option (option Q).

(** The parser of [pd.to_numeric] on one string, with [errors='coerce']:
    [None] is [NaN], whether parsed or coerced. *)
Variable pd_numeric : string → option Q.

(** [Series.astype(float)] on a column of Python objects: every cell goes
    through [float]; one failure fails the whole conversion. *)
Definition astype_float (col : list value) : option (list value) :=
  mapM (λ v, match v with Str s => of_float <$> py_float s | _ => Some v end) col.

(** [Series.astype(float, errors='ignore')]: on failure the original
    column is returned. *)
Definition astype_float_ignore (col : list value) : list value :=
  default col (astype_float col).

(** [pd.to_numeric(col, errors='coerce')] *)
Definition to_numeric_coerce (v : value) : value :=
  match v with Str s => of_float (pd_numeric s) | _ => v end.

Definition process_listings_data (listings : list (gmap string value)) : result DataFrame :=
  match listings with
  | [] => Ok empty_frame
  | _ =>
      let df := DataFrame_of_records listings in
      price ← getitem df "price";
      price_str ← str_accessor price;
      let df := setitem df "price_numeric"
                  (astype_float_ignore (str_replace_price <$> price_str)) in
      bedrooms ← getitem df "bedrooms";
      let df := setitem df "bedrooms_numeric" (to_numeric_coerce <$> bedrooms) in
      bathrooms ← getitem df "bathrooms";
      let df := setitem df "bathrooms_numeric" (to_numeric_coerce <$> bathrooms) in
      sqft ← getitem df "sqft";
      let df := setitem df "sqft_numeric" (to_numeric_coerce <$> sqft) in
      address ← getitem df "address";
      address_str ← str_accessor address;
      extracted ← str_accessor (str_extract_neighborhood <$> address_str);
      Ok (setitem df "neighborhood" (str_strip <$> extracted))
  end.

End Coercion.

(** ** The filters of [main] *)

(** [col >= x] and [col <= x] against a number: a missing value compares
    false, a string raises. *)
Definition ge_scalar (x : Q) (v : value) : result bool :=
  match v with
  | NaN => Ok false
  | Num q => Ok (Qle_bool x q)
  | Str _ => Err TypeError
  end.

Definition le_scalar (x : Q) (v : value) : result bool :=
  match v with
  | NaN => Ok false
  | Num q => Ok (Qle_bool q x)
  | Str _ => Err TypeError
  end.

(** Equality of cells as [isin] and [groupby] see it. *)
Definition value_eqb (a b : value) : bool :=
  match a, b with
  | NaN, NaN => true
  | Num p, Num q => Qeq_bool p q
  | Str s, Str t => String.eqb s t
  | _, _ => false
  end.

(** [col.isin(values)] on one cell. *)
Definition isin (values : list value) (v : value) : bool :=
  existsb (value_eqb v) values.

(** The price-range filter. *)
Definition filter_price (df : DataFrame) (price_range : Q * Q) : result DataFrame :=
  if decide ("price_numeric" ∈ columns df) then
    price ← getitem df "price_numeric";
    lower ← mapM (ge_scalar price_range.1) price;
    price ← getitem df "price_numeric";
    upper ← mapM (le_scalar price_range.2) price;
    Ok (boolean_index df (zip_with andb lower upper))
  else Ok df.

(** A multiselect filter on column [c]: skipped when nothing is selected. *)
Definition filter_isin (df : DataFrame) (c : string) (selected : list value) : result DataFrame :=
  match selected with
  | [] => Ok df
  | _ => col ← getitem df c; Ok (boolean_index df (isin selected <$> col))
  end.

(** The block "Apply filters" of [main]. *)
Definition apply_filters (df : DataFrame) (price_range : Q * Q)
    (bedrooms property_types : list value) : result DataFrame :=
  df_filtered ← filter_price df price_range;
  df_filtered ← filter_isin df_filtered "bedrooms_numeric" bedrooms;
  filter_isin df_filtered "property_type" property_types.

(** ** Per-neighbourhood statistics: [create_neighborhood_chart] *)

(** The order in which [groupby] sorts its keys: numbers by value, strings
    by code point, numbers before strings. *)
Definition value_ltb (a b : value) : bool :=
  match a, b with
  | Num p, Num q => match Qcompare p q with Lt => true | _ => false end
  | Str s, Str t => String.ltb s t
  | Num _, Str _ => true
  | _, _ => false
  end.

(** Insertion of a key into a sorted list of distinct keys. *)
Fixpoint insert_key (k : value) (ks : list value) : list value :=
  match ks with
  | [] => [k]
  | k' :: ks' =>
      if value_ltb k k' then k :: ks
      else if value_eqb k k' then ks
      else k' :: insert_key k ks'
  end.

(** The group keys of a column: its distinct values that are not missing
    ([dropna=True]), in ascending order ([sort=True]). *)
Definition group_keys (col : list value) : list value :=
  foldr insert_key [] (filter (λ v, isna v = false) col).

(** [df.groupby(by)]: each key with the rows of its group, in frame order. *)
Definition groupby (df : DataFrame) (by_ : string)
    : result (list (value * list (gmap string value))) :=
  keys ← getitem df by_;
  Ok ((λ k, (k, filter (λ r, value_eqb (cell by_ r) k = true) (rows df)))
        <$> group_keys keys).

(** The numbers of a column, missing values skipped. *)
Definition numbers (col : list value) : list Q :=
  omap (λ v, match v with Num q => Some q | _ => None end) col.

Definition Qsum (l : list Q) : Q := foldr Qplus 0%Q l.

(** ['mean']: the mean of the values that are not missing, [NaN] when there
    is none; a string cannot be averaged.  The mean is the exact one; the
    binary64 mean of the program is equal to it when the sum of the values
    is computed without rounding and the quotient is a binary64 number. *)
Definition mean (col : list value) : result value :=
  if existsb is_str col then Err TypeError
  else match numbers col with
       | [] => Ok NaN
       | xs => Ok (Num (Qsum xs / inject_Z (Z.of_nat (length xs))))
       end.

(** ['count']: the number of values that are not missing. *)
Definition count (col : list value) : nat :=
  length (filter (λ v, isna v = false) col).

(** Rounding to the nearest integer, halves to the even neighbour, as
    [numpy] rounds. *)
Definition round_half_even (q : Q) : Z :=
  let f := Qfloor q in
  match Qcompare (q - inject_Z f) (1 # 2) with
  | Lt => f
  | Gt => (f + 1)%Z
  | Eq => if Z.even f then f else (f + 1)%Z
  end.

(** [.round(0)] on one cell. *)
Definition round0 (v : value) : value :=
  match v with Num q => Num (inject_Z (round_half_even q)) | _ => v end.

(** A row of [neighborhood_stats]: the index label and the two columns.
    The count is a whole number, which [.round(0)] leaves as it is. *)
Record AggRow := {
  neighborhood : value;
  avg_price : value;
  agg_count : nat
}.

(** [.agg({'price_numeric': ['mean', 'count']}).round(0)] on one group. *)
Definition agg_group (g : value * list (gmap string value)) : result AggRow :=
  let col := cell "price_numeric" <$> g.2 in
  m ← mean col;
  Ok {| neighborhood := g.1; avg_price := round0 m; agg_count := count col |}.

(** The table that [create_neighborhood_chart] plots; [None] when the
    function returns no chart. *)
Definition create_neighborhood_chart (df : DataFrame) : result (option (list AggRow)) :=
  if empty df || negb (bool_decide ("neighborhood" ∈ columns df)) then Ok None
  else
    groups ← groupby df "neighborhood";
    _ ← getitem df "price_numeric";
    neighborhood_stats ← mapM agg_group groups;
    Ok (Some (take 10 (filter (λ r, 3 ≤ agg_count r) neighborhood_stats))).

(** ** Sorting the listings table *)

(** [a[idx]] with integer indices: out of range raises. *)
Definition take_idx {A} (l : list A) (idx : list nat) : result (list A) :=
  mapM (λ i, match l !! i with Some x => Ok x | None => Err IndexError end) idx.

Section Sorting.

(** [numpy]'s [argsort(kind='quicksort')], the default kind of
    [sort_values]: the indices that sort the array in ascending order.
    The order it gives to equal elements is not part of its contract. *)
Variable np_argsort : list value → list nat.

(** [nargsort(items, kind, ascending, na_position='last')] of pandas. *)
Definition nargsort (items : list value) (ascending : bool) : result (list nat) :=
  let mask := isna <$> items in
  let idx := seq 0 (length items) in
  let non_nans := select (negb <$> mask) items in
  let non_nan_idx := select (negb <$> mask) idx in
  let nan_idx := select mask idx in
  let non_nans := if ascending then non_nans else reverse non_nans in
  let non_nan_idx := if ascending then non_nan_idx else reverse non_nan_idx in
  if existsb is_num non_nans && existsb is_str non_nans then Err TypeError
  else
    indexer ← take_idx non_nan_idx (np_argsort non_nans);
    let indexer := if ascending then indexer else reverse indexer in
    Ok (indexer ++ nan_idx).

(** [df.sort_values(by, ascending=ascending)] *)
Definition sort_values (df : DataFrame) (by_ : string) (ascending : bool) : result DataFrame :=
  k ← getitem df by_;
  indexer ← nargsort k ascending;
  sorted ← take_idx (rows df) indexer;
  Ok {| columns := columns df; rows := sorted |}.

(** The block "Sort and display" of [main]. *)
Definition sort_and_display (df_filtered : DataFrame) (sort_by : string)
    (show_count : nat) : result DataFrame :=
  if decide (sort_by ∈ columns df_filtered) then
    sorted ← sort_values df_filtered sort_by false;
    Ok (head sorted show_count)
  else Ok (head df_filtered show_count).

End Sorting.

(** ** Reference instances of the library functions

    Plain decimal literals, and an insertion argsort: instances at which the
    pipeline can be run. *)

(** A run of decimal digits: its value, its length and what follows. *)
Fixpoint read_digits (s : string) (acc : Z) (n : nat) : Z * nat * string :=
  match s with
  | EmptyString => (acc, n, EmptyString)
  | String c s' =>
      match Ascii.is_nat c with
      | Some d => read_digits s' (10 * acc + Z.of_nat d)%Z (S n)
      | None => (acc, n, s)
      end
  end.

(** [digits], [digits.digits], [digits.] and [.digits]. *)
Definition parse_unsigned (s : string) : option Q :=
  let '(i, ni, rest) := read_digits s 0%Z 0 in
  match rest with
  | EmptyString => if (ni =? 0)%nat then None else Some (inject_Z i)
  | String "." rest' =>
      let '(f, nf, rest'') := read_digits rest' 0%Z 0 in
      match rest'' with
      | EmptyString =>
          if (ni + nf =? 0)%nat then None
          else Some (Qmake (i * 10 ^ Z.of_nat nf + f) (Z.to_pos (10 ^ Z.of_nat nf)))
      | _ => None
      end
  | _ => None
  end.

Definition parse_decimal (s : string) : option Q :=
  match strip s with
  | String "-" s' => Qopp <$> parse_unsigned s'
  | String "+" s' => parse_unsigned s'
  | s' => parse_unsigned s'
  end.

(** [float] on decimal literals; everything else is refused. *)
Definition decimal_float (s : string) : option (option Q) :=
  Some <$> parse_decimal s.

(** A stable argsort by insertion. *)
Fixpoint insert_idx (keys : list value) (i : nat) (sorted : list nat) : list nat :=
  match sorted with
  | [] => [i]
  | j :: sorted' =>
      if value_ltb (default NaN (keys !! j)) (default NaN (keys !! i))
      then j :: insert_idx keys i sorted'
      else i :: sorted
  end.

Definition insertion_argsort (keys : list value) : list nat :=
  foldr (insert_idx keys) [] (seq 0 (length keys)).

(** A raw listing with all six fields. *)
Definition listing (address price bedrooms bathrooms sqft property_type : value)
    : gmap string value :=
  <["address" := address]> (<["price" := price]> (<["bedrooms" := bedrooms]>
  (<["bathrooms" := bathrooms]> (<["sqft" := sqft]>
  (<["property_type" := property_type]> ∅))))).

(** ** Notions of the specification *)

(** The price of a listing is known and lies in the inclusive range. *)
Definition price_in_range (price_range : Q * Q) (r : gmap string value) : bool :=
  match cell "price_numeric" r with
  | Num q => Qle_bool price_range.1 q && Qle_bool q price_range.2
  | _ => false
  end.

(** A multiselect lets a listing through: nothing is selected, or the value
    of the listing is. *)
Definition passes (c : string) (selected : list value) (r : gmap string value) : bool :=
  match selected with
  | [] => true
  | _ => isin selected (cell c r)
  end.

(** The distinct values of a column that are not missing, in the order in
    which each first appears. *)
Definition first_seen (col : list value) : list value :=
  foldl (λ seen v, if isna v || existsb (value_eqb v) seen then seen else seen ++ [v])
        [] col.

(** The position of the first comma of a string. *)
Fixpoint first_comma (s : string) : option nat :=
  match s with
  | EmptyString => None
  | String c s' => if Ascii.eqb c "," then Some 0 else S <$> first_comma s'
  end.

(** The listings of a group that enter its ['count']: those of the
    neighbourhood whose price is not missing. *)
Definition priced_in (k : value) (r : gmap string value) : bool :=
  value_eqb (cell "neighborhood" r) k && negb (isna (cell "price_numeric" r)).

(** A group survives the threshold of the chart. *)
Definition survives (rs : list (gmap string value)) (k : value) : bool :=
  3 <=? length (filter (λ r, priced_in k r = true) rs).

(** The strict order of the group keys. *)
Definition value_lt (a b : value) : Prop := value_ltb a b = true.

(** No value of the key is missing before position [i] once one is missing:
    the missing values come last. *)
Definition nulls_last (key : string) (l : list (gmap string value)) : Prop :=
  ∀ i j ri rj, i < j → l !! i = Some ri → l !! j = Some rj →
    isna (cell key ri) = true → isna (cell key rj) = true.

(** ** Example frames *)

(** A row of a view with a neighbourhood and a coerced price. *)
Definition priced (nbhd : value) (price : value) : gmap string value :=
  <["neighborhood" := nbhd]> (<["price_numeric" := price]> ∅).

Definition view_of (l : list (gmap string value)) : DataFrame :=
  {| columns := {["neighborhood"; "price_numeric"]}; rows := l |}.

(** Neighbourhoods A, A, A, B, B with prices 100 to 500. *)
Definition view_five : DataFrame :=
  view_of [priced (Str "A") (Num 100); priced (Str "A") (Num 200);
           priced (Str "A") (Num 300); priced (Str "B") (Num 400);
           priced (Str "B") (Num 500)].

(** Three listings of B followed by three of A. *)
Definition view_b_then_a : DataFrame :=
  view_of [priced (Str "B") (Num 100); priced (Str "B") (Num 200);
           priced (Str "B") (Num 300); priced (Str "A") (Num 400);
           priced (Str "A") (Num 500); priced (Str "A") (Num 600)].

(** Three listings of A, one of them without a price. *)
Definition view_unpriced : DataFrame :=
  view_of [priced (Str "A") (Num 100); priced (Str "A") NaN;
           priced (Str "A") (Num 300)].

(** Two listings, the second with a price that is not a number. *)
Definition listings_malformed : list (gmap string value) :=
  [listing (Str "1 Elm St, Springfield") (Str "$100") (Num 2) (Num 1)
           (Num 900) (Str "House");
   listing (Str "2 Oak St, Shelbyville") (Str "Contact agent") (Num 3) (Num 2)
           (Num 1200) (Str "Condo")].

(** The first of the two listings alone. *)
Definition listings_wellformed : list (gmap string value) :=
  take 1 listings_malformed.

(** Three listings, the second without a price. *)
Definition listings_sample : list (gmap string value) :=
  [listing (Str "12 Oak St, Springfield") (Str "$250,000") (Num 3) (Num 2)
           (Num 1500) (Str "House");
   listing (Str "7 Elm Rd, Shelbyville") NaN (Num 2) (Num 1)
           (Num 900) (Str "Condo");
   listing (Str "3 Pine Ave, Springfield") (Str "$900,000+") (Num 4) (Num 3)
           (Num 3000) (Str "House")].

(** The dataset that [process_listings_data] makes of them. *)
Definition dataset_sample : DataFrame :=
  Eval vm_compute in
  match process_listings_data decimal_float parse_decimal listings_sample with
  | Ok df => df
  | Err _ => empty_frame
  end.

(** A price range that holds every price of the sample. *)
Definition sample_range : Q * Q := (0 # 1, 1000000 # 1)%Q.

(** The listings of the sample whose price is known: the first and the
    third. *)
Definition sample_priced : DataFrame :=
  boolean_index dataset_sample [true; false; true].

(** The sample by descending price, under the reference argsort. *)
Definition sample_sorted : DataFrame :=
  Eval vm_compute in
  match sort_and_display insertion_argsort dataset_sample "price_numeric" 3 with
  | Ok df => df
  | Err _ => empty_frame
  end.

(** A column of the frame that a step returns. *)
Definition column (c : string) (r : result DataFrame) : result (list value) :=
  (λ df, cell c <$> rows df) <$> r.

(** ** Notions of the normalisation *)

(** The keys of a raw listing that the normalisation reads. *)
Definition required_keys : list string :=
  ["price"; "bedrooms"; "bathrooms"; "sqft"; "address"].

(** The columns that the normalisation adds. *)
Definition derived_columns : list string :=
  ["price_numeric"; "bedrooms_numeric"; "bathrooms_numeric"; "sqft_numeric";
   "neighborhood"].

(** The row that the normalisation makes of a listing, given the cell of the
    listing in the coerced price column. *)
Definition normalised (pd_numeric : string → option Q) (l : gmap string value)
    (price_numeric : value) : gmap string value :=
  <["neighborhood" := extract_neighborhood (cell "address" l)]>
  (<["sqft_numeric" := to_numeric_coerce pd_numeric (cell "sqft" l)]>
  (<["bathrooms_numeric" := to_numeric_coerce pd_numeric (cell "bathrooms" l)]>
  (<["bedrooms_numeric" := to_numeric_coerce pd_numeric (cell "bedrooms" l)]>
  (<["price_numeric" := price_numeric]> l)))).

(** The coercion of one price on its own: the symbols stripped, the rest
    parsed by [float], missing when there is no text or no number in it. *)
Definition coerce_price (py_float : string → option (option Q)) (v : value) : value :=
  match v with
  | Str s => match py_float (re_sub_price s) with
             | Some x => of_float x
             | None => NaN
             end
  | _ => NaN
  end.

(** The frame that the normalisation makes of the listings with a malformed
    price. *)
Definition dataset_malformed : DataFrame :=
  Eval vm_compute in
  match process_listings_data decimal_float parse_decimal listings_malformed with
  | Ok df => df
  | Err _ => empty_frame
  end.

(** The first listing of the sample and its row. *)
Definition sample_first : gmap string value :=
  Eval vm_compute in default ∅ (listings_sample !! 0).

Definition sample_first_row : gmap string value :=
  Eval vm_compute in default ∅ (rows dataset_sample !! 0).

(** A listing whose price is a JSON number. *)
Definition listings_numeric_price : list (gmap string value) :=
  [listing (Str "1 Elm St, Springfield") (Num 450000) (Num 2) (Num 1)
           (Num 900) (Str "House")].

(** ** The view and the metrics of [main] *)

(** A listing passes the filters of [main] on the frame [df]: the price
    range when the frame has coerced prices, and the two multiselects. *)
Definition kept (df : DataFrame) (price_range : Q * Q)
    (bedrooms property_types : list value) (r : gmap string value) : bool :=
  (if bool_decide ("price_numeric" ∈ columns df)
   then price_in_range price_range r else true)
  && passes "bedrooms_numeric" bedrooms r
  && passes "property_type" property_types r.

(** The metric "Total Listings" of [main]: the size of the view, and the
    number that the delta prints, shown when the view is not as long as the
    dataset. *)
Definition total_listings (df df_filtered : DataFrame) : nat * option Z :=
  (length (rows df_filtered),
   if decide (length (rows df_filtered) ≠ length (rows df))
   then Some (Z.of_nat (length (rows df_filtered)) - Z.of_nat (length (rows df)))%Z
   else None).

(** The value that the metric "Average Price" of [main] formats: the mean
    of the coerced prices of the view, or 0 without the column. *)
Definition average_price (df_filtered : DataFrame) : result value :=
  if decide ("price_numeric" ∈ columns df_filtered)
  then price ← getitem df_filtered "price_numeric"; mean price
  else Ok (Num 0).

(** ** Notions of the chart and of the sort *)

(** The known prices of the listings of a neighbourhood. *)
Definition group_prices (rs : list (gmap string value)) (k : value) : list Q :=
  numbers (cell "price_numeric"
             <$> filter (λ r, value_eqb (cell "neighborhood" r) k = true) rs).

(** A number without a fractional part. *)
Definition is_whole (q : Q) : bool := Qeq_bool q (inject_Z (Qfloor q)).

(** Three listings of A, one of them with a price left as text. *)
Definition view_text_price : DataFrame :=
  view_of [priced (Str "A") (Str "100"); priced (Str "A") (Str "Contact agent");
           priced NaN (Str "300")].

(** The array that [nargsort] hands to [argsort]: the values that are not
    missing, reversed for a descending sort. *)
Definition argsort_input (items : list value) (ascending : bool) : list value :=
  let known := select (negb <$> (isna <$> items)) items in
  if ascending then known else reverse known.

(** No element of the list is less than an earlier one. *)
Fixpoint is_ascending (l : list value) : bool :=
  match l with
  | [] => true
  | x :: l' => forallb (λ y, negb (value_ltb y x)) l' && is_ascending l'
  end.

(** The first two rows of the sorted sample. *)
Definition sample_sorted_first : gmap string value :=
  Eval vm_compute in default ∅ (rows sample_sorted !! 0).

Definition sample_sorted_second : gmap string value :=
  Eval vm_compute in default ∅ (rows sample_sorted !! 1).

(** ** The default selections of the sidebar *)

(** [col.dropna()] *)
Definition dropna (col : list value) : list value :=
  filter (λ v, isna v = false) col.

(** [col.unique()]: the distinct values of the column, in the order in which
    each first appears. *)
Definition unique (col : list value) : list value :=
  foldl (λ seen v, if isin seen v then seen else seen ++ [v]) [] col.

(** The order of Python on cells that are not missing: [a <= b] when [b < a]
    does not hold. *)
Definition value_le (a b : value) : Prop := value_ltb b a = false.

#[global] Instance value_le_dec a b : Decision (value_le a b) :=
  decide (value_ltb b a = false).

(** [sorted(xs)] on cells that are not missing, which is what the sidebar
    sorts: ascending and stable; a number and a string do not compare. *)
Definition sorted (xs : list value) : result (list value) :=
  if existsb is_num xs && existsb is_str xs then Err TypeError
  else Ok (merge_sort value_le xs).

(** The options of the multiselect "Bedrooms", which are its default
    selection as well. *)
Definition bedroom_options (df : DataFrame) : result (list value) :=
  col ← getitem df "bedrooms_numeric";
  sorted (unique (dropna col)).

(** The options of the multiselect "Property Type", which are its default
    selection as well. *)
Definition property_type_options (df : DataFrame) : result (list value) :=
  col ← getitem df "property_type";
  Ok (unique (dropna col)).

(** The position of the first cell of a column that holds the value [v]. *)
Fixpoint first_index (col : list value) (v : value) : option nat :=
  match col with
  | [] => None
  | x :: col' => if value_eqb x v then Some 0 else S <$> first_index col' v
  end.

(** What [unique] adds to the values it has seen. *)
Fixpoint unseen (seen col : list value) : list value :=
  match col with
  | [] => []
  | x :: col' =>
      if isin seen x then unseen seen col' else x :: unseen (seen ++ [x]) col'
  end.

(** No value of the list is equal to a later one. *)
Fixpoint distinct (l : list value) : bool :=
  match l with
  | [] => true
  | x :: l' => negb (isin l' x) && distinct l'
  end.

(** The listing has a value in column [c], or no listing of the frame has
    one. *)
Definition known_or_unused (df : DataFrame) (c : string)
    (r : gmap string value) : bool :=
  negb (isna (cell c r)) || forallb (λ r', isna (cell c r')) (rows df).

(** A listing is in the view under the default selections. *)
Definition kept_by_default (df : DataFrame) (price_range : Q * Q)
    (r : gmap string value) : bool :=
  (if bool_decide ("price_numeric" ∈ columns df)
   then price_in_range price_range r else true)
  && known_or_unused df "bedrooms_numeric" r
  && known_or_unused df "property_type" r.

(** Listings of which one has no bedroom count and another no property
    type. *)
Definition listings_gaps : list (gmap string value) :=
  [listing (Str "1 Elm St, Springfield") (Str "$450,000") (Num 3) (Num 2)
           (Num 1500) (Str "House");
   listing (Str "2 Oak Ave, Shelbyville") (Str "$300,000") NaN (Num 1)
           (Num 800) (Str "Condo");
   listing (Str "3 Pine Rd, Springfield") (Str "$350,000") (Num 2) (Num 1)
           (Num 900) NaN;
   listing (Str "4 Fir Ln, Springfield") (Str "$250,000") (Num 2) (Num 1)
           (Num 700) (Str "House")].

Definition dataset_gaps : DataFrame :=
  Eval vm_compute in
  match process_listings_data decimal_float parse_decimal listings_gaps with
  | Ok df => df
  | Err _ => empty_frame
  end.

Definition gaps_bedrooms : list value :=
  Eval vm_compute in
  match bedroom_options dataset_gaps with Ok l => l | Err _ => [] end.

Definition gaps_property_types : list value :=
  Eval vm_compute in
  match property_type_options dataset_gaps with Ok l => l | Err _ => [] end.

(** ** Listings by number of bedrooms: [create_bedroom_analysis_chart] *)

(** The number of cells of a column that hold the value [k]. *)
Definition occurrences (col : list value) (k : value) : nat :=
  length (filter (λ v, value_eqb v k = true) col).

(** A count as a cell. *)
Definition of_nat (n : nat) : value := Num (inject_Z (Z.of_nat n)).

(** No label is less than the one before it. *)
Fixpoint nondecreasing (keys : list value) : bool :=
  match keys with
  | [] => true
  | k :: rest =>
      match rest with
      | [] => true
      | k' :: _ => negb (value_ltb k' k) && nondecreasing rest
      end
  end.

(** [index.is_monotonic_increasing] on labels that are not missing: labels
    that do not compare with each other are not monotonic. *)
Definition is_monotonic_increasing (keys : list value) : bool :=
  negb (existsb is_num keys && existsb is_str keys) && nondecreasing keys.

(** [px.bar(x=..., y=...)] on two arrays: Plotly takes two empty arrays for
    lists of column names, and refuses them with [ValueError]. *)
Definition px_bar (bars : list (value * nat)) : result (list (value * nat)) :=
  match bars with
  | [] => Err ValueError
  | _ => Ok bars
  end.

(** Some listing of the frame has a bedroom count. *)
Definition bedrooms_known (df : DataFrame) : bool :=
  existsb (λ r, negb (isna (cell "bedrooms_numeric" r))) (rows df).

Section BedroomChart.

Variable np_argsort : list value → list nat.

(** [col.value_counts()]: the distinct values that are not missing, in the
    order in which each first appears, each with the number of its
    occurrences; then sorted by that number, descending. *)
Definition value_counts (col : list value) : result (list (value * nat)) :=
  let keys := unique (dropna col) in
  let counts := occurrences col <$> keys in
  indexer ← nargsort np_argsort (of_nat <$> counts) false;
  take_idx (zip keys counts) indexer.

(** [s.sort_index()]: a series whose labels are ascending already is
    returned as it is. *)
Definition sort_index (s : list (value * nat)) : result (list (value * nat)) :=
  if is_monotonic_increasing (s.*1) then Ok s
  else
    indexer ← nargsort np_argsort (s.*1) true;
    take_idx s indexer.

(** The bars of the figure that [create_bedroom_analysis_chart] returns,
    each a number of bedrooms and a number of listings; [None] when the
    function returns no chart. *)
Definition create_bedroom_analysis_chart (df : DataFrame)
    : result (option (list (value * nat))) :=
  if empty df || negb (bool_decide ("bedrooms_numeric" ∈ columns df)) then Ok None
  else
    col ← getitem df "bedrooms_numeric";
    bedroom_counts ← value_counts col;
    bedroom_counts ← sort_index bedroom_counts;
    fig ← px_bar bedroom_counts;
    Ok (Some fig).

End BedroomChart.

(** Listings of which the most frequent bedroom count is the greatest. *)
Definition listings_bedrooms : list (gmap string value) :=
  [listing (Str "1 Elm St, Springfield") (Str "$450,000") (Num 3) (Num 2)
           (Num 1500) (Str "House");
   listing (Str "2 Oak Ave, Shelbyville") (Str "$300,000") (Num 3) (Num 1)
           (Num 800) (Str "Condo");
   listing (Str "3 Pine Rd, Springfield") (Str "$350,000") NaN (Num 1)
           (Num 900) (Str "Condo");
   listing (Str "4 Fir Ln, Springfield") (Str "$250,000") (Num 2) (Num 1)
           (Num 700) (Str "House")].

Definition dataset_bedrooms : DataFrame :=
  Eval vm_compute in
  match process_listings_data decimal_float parse_decimal listings_bedrooms with
  | Ok df => df
  | Err _ => empty_frame
  end.

Definition bedrooms_bars : list (value * nat) :=
  Eval vm_compute in
  match create_bedroom_analysis_chart insertion_argsort dataset_bedrooms with
  | Ok (Some bars) => bars
  | _ => []
  end.



(** * Properties *)

(** ** The result monad *)

Lemma bind_Ok {A B} (m : result A) (f : A → result B) (b : B) :
  m ≫= f = Ok b → ∃ a, m = Ok a ∧ f a = Ok b.
Proof. destruct m as [a|e]; [eauto | discriminate]. Qed.

Ltac inv_bind H :=
  let a := fresh "a" in
  let Ha := fresh "H" a in
  apply bind_Ok in H as (a & Ha & H).

Lemma mapM_Ok_length {A B} (f : A → result B) (l : list A) (k : list B) :
  mapM f l = Ok k → length k = length l.
Proof.
  revert k. induction l as [|x l IH]; intros k H; simpl in H.
  - by inversion H.
  - inv_bind H. inv_bind H. inversion H; subst. simpl. f_equal. eauto.
Qed.

Lemma mapM_Ok_lookup {A B} (f : A → result B) (l : list A) (k : list B) i y :
  mapM f l = Ok k → k !! i = Some y → ∃ x, l !! i = Some x ∧ f x = Ok y.
Proof.
  revert k i. induction l as [|x l IH]; intros k i H Hi; simpl in H.
  - inversion H; subst. done.
  - inv_bind H. inv_bind H. inversion H; subst.
    destruct i as [|i]; simpl in *.
    + inversion Hi; subst. eauto.
    + eauto.
Qed.

(** ** Boolean indexing *)

Lemma select_sublist {A} (mask : list bool) (l : list A) :
  select mask l `sublist_of` l.
Proof.
  revert mask. induction l as [|x l IH]; intros [|[] mask]; simpl;
    try constructor; auto using sublist_nil_l.
Qed.

Lemma select_fmap {A} (f : A → bool) (l : list A) :
  select (f <$> l) l = filter (λ x, f x = true) l.
Proof.
  induction l as [|x l IH]; [done|].
  rewrite fmap_cons, filter_cons. cbn [select]. rewrite IH.
  destruct (f x); by case_decide.
Qed.

Lemma select_price_range (lo hi : Q) (rs : list (gmap string value)) lower upper :
  mapM (ge_scalar lo) (cell "price_numeric" <$> rs) = Ok lower →
  mapM (le_scalar hi) (cell "price_numeric" <$> rs) = Ok upper →
  select (zip_with andb lower upper) rs
  = filter (λ r, price_in_range (lo, hi) r = true) rs.
Proof.
  revert lower upper. induction rs as [|r rs IH]; intros lower upper Hl Hu.
  - simpl in *. by inversion Hl.
  - simpl in Hl, Hu. do 2 inv_bind Hl. do 2 inv_bind Hu.
    inversion Hl; inversion Hu; subst. simpl.
    rewrite filter_cons, (IH _ _ Ha0 Ha2). unfold price_in_range. simpl.
    destruct (cell "price_numeric" r); simpl in *; simplify_eq; try done.
    destruct (Qle_bool lo q && Qle_bool q hi); by case_decide.
Qed.

(** ** The filters *)

Lemma filter_price_rows df price_range out :
  "price_numeric" ∈ columns df →
  filter_price df price_range = Ok out →
  columns out = columns df
  ∧ rows out = filter (λ r, price_in_range price_range r = true) (rows df).
Proof.
  intros Hc H. unfold filter_price, getitem in H.
  rewrite !decide_True in H by done. simpl in H.
  do 2 inv_bind H. inversion H; subst. simpl. split; [done|].
  destruct price_range as [lo hi]. eauto using select_price_range.
Qed.

Lemma filter_price_sublist df price_range out :
  filter_price df price_range = Ok out →
  columns out = columns df ∧ rows out `sublist_of` rows df.
Proof.
  intros H. destruct (decide ("price_numeric" ∈ columns df)) as [Hc|Hc].
  - destruct (filter_price_rows _ _ _ Hc H) as [-> ->].
    split; [done | apply sublist_filter].
  - unfold filter_price in H. rewrite decide_False in H by done.
    by inversion H.
Qed.

Lemma filter_isin_nil df c : filter_isin df c [] = Ok df.
Proof. done. Qed.

Lemma filter_isin_rows df c selected out :
  selected ≠ [] →
  filter_isin df c selected = Ok out →
  columns out = columns df
  ∧ rows out = filter (λ r, isin selected (cell c r) = true) (rows df).
Proof.
  intros Hne H. destruct selected as [|v sel]; [done|].
  unfold filter_isin, getitem in H. case_decide; [|discriminate].
  simpl in H. inversion H; subst. simpl. split; [done|].
  rewrite <- list_fmap_compose. apply (select_fmap (λ r, isin (v :: sel) (cell c r))).
Qed.

Lemma filter_isin_sublist df c selected out :
  filter_isin df c selected = Ok out →
  columns out = columns df ∧ rows out `sublist_of` rows df.
Proof.
  intros H. destruct selected as [|v sel].
  - by inversion H.
  - destruct (filter_isin_rows df c (v :: sel) out) as [-> ->]; [done..|].
    split; [done | apply sublist_filter].
Qed.

Lemma mapM_total {A B} (f : A → result B) (l : list A) :
  Forall (λ x, ∃ b, f x = Ok b) l → ∃ k, mapM f l = Ok k.
Proof.
  induction 1 as [|x l [b Hb] _ [k IH]]; simpl; [by eexists|].
  rewrite Hb. simpl. rewrite IH. simpl. by eexists.
Qed.

(** A frame whose coerced prices are numbers or missing is filtered without
    an exception. *)
Lemma filter_price_total df price_range :
  Forall (λ r, is_str (cell "price_numeric" r) = false) (rows df) →
  ∃ out, filter_price df price_range = Ok out.
Proof.
  intros Hnum. unfold filter_price. case_decide; [|eauto].
  unfold getitem. rewrite decide_True by done. simpl.
  destruct (mapM_total (ge_scalar price_range.1) (cell "price_numeric" <$> rows df))
    as [lower ->].
  { apply Forall_fmap. eapply Forall_impl; [done|]. intros r. simpl.
    destruct (cell "price_numeric" r); simpl; intros; eauto; discriminate. }
  destruct (mapM_total (le_scalar price_range.2) (cell "price_numeric" <$> rows df))
    as [upper ->].
  { apply Forall_fmap. eapply Forall_impl; [done|]. intros r. simpl.
    destruct (cell "price_numeric" r); simpl; intros; eauto; discriminate. }
  simpl. eauto.
Qed.

Lemma apply_filters_total df price_range bedrooms property_types :
  Forall (λ r, is_str (cell "price_numeric" r) = false) (rows df) →
  "bedrooms_numeric" ∈ columns df → "property_type" ∈ columns df →
  ∃ out, apply_filters df price_range bedrooms property_types = Ok out.
Proof.
  intros Hnum Hb Hp. unfold apply_filters.
  destruct (filter_price_total df price_range Hnum) as [d1 H1]. rewrite H1. simpl.
  apply filter_price_sublist in H1 as [Hc1 _].
  assert (∀ d c sel, c ∈ columns d → ∃ d', filter_isin d c sel = Ok d'
            ∧ columns d' = columns d) as Hisin.
  { intros d c [|v sel] Hc; [by eexists|]. unfold filter_isin, getitem.
    rewrite decide_True by done. simpl. by eexists. }
  destruct (Hisin d1 "bedrooms_numeric" bedrooms) as (d2 & -> & Hc2); [by rewrite Hc1|].
  simpl. destruct (Hisin d2 "property_type" property_types) as (d3 & -> & _);
    [by rewrite Hc2, Hc1 | eauto].
Qed.

(** C9. The filtered view is a subsequence of the dataset: its listings occur
    in the dataset in the same relative order, and it is no longer than the
    dataset. *)
Theorem apply_filters_subsequence df price_range bedrooms property_types out :
  apply_filters df price_range bedrooms property_types = Ok out →
  rows out `sublist_of` rows df ∧ length (rows out) ≤ length (rows df).
Proof.
  intros H. unfold apply_filters in H. do 2 inv_bind H.
  apply filter_price_sublist in Ha as [_ H1].
  apply filter_isin_sublist in Ha0 as [_ H2].
  apply filter_isin_sublist in H as [_ H3].
  assert (rows out `sublist_of` rows df) as Hs by (do 2 (etrans; [done|]); done).
  split; [done | by apply sublist_length].
Qed.

Lemma filter_isin_passes df c selected out :
  filter_isin df c selected = Ok out →
  rows out = filter (λ r, passes c selected r = true) (rows df).
Proof.
  intros H. destruct selected as [|v sel].
  - inversion H; subst. symmetry. induction (rows out) as [|r l IH]; [done|].
    rewrite filter_cons, decide_True by done. by f_equal.
  - by destruct (filter_isin_rows df c (v :: sel) out) as [_ ->].
Qed.

Lemma filter_and {A} (f g : A → bool) (l : list A) :
  filter (λ x, g x = true) (filter (λ x, f x = true) l)
  = filter (λ x, f x && g x = true) l.
Proof.
  rewrite list_filter_filter. apply list_filter_iff. intros x.
  rewrite andb_true_iff. tauto.
Qed.

(** C1, as the code has it. With an empty selection a multiselect filter is
    skipped: when no bedroom count is selected the view holds exactly the
    listings that pass the price range and the property-type filter, whatever
    their bedrooms, and likewise for an empty property-type selection. *)
Theorem empty_selection_skips_filter df price_range selected out :
  "price_numeric" ∈ columns df →
  (apply_filters df price_range [] selected = Ok out →
   rows out = filter (λ r, price_in_range price_range r
                           && passes "property_type" selected r = true) (rows df))
  ∧ (apply_filters df price_range selected [] = Ok out →
     rows out = filter (λ r, price_in_range price_range r
                             && passes "bedrooms_numeric" selected r = true) (rows df)).
Proof.
  intros Hc. split; intros H; unfold apply_filters in H; do 2 inv_bind H.
  - inversion Ha0; subst.
    apply filter_price_rows in Ha as [_ Hr]; [|done].
    apply filter_isin_passes in H. by rewrite H, Hr, filter_and.
  - inversion H; subst.
    apply filter_price_rows in Ha as [_ Hr]; [|done].
    apply filter_isin_passes in Ha0. by rewrite Ha0, Hr, filter_and.
Qed.

(** C2, as the code has it. The price filter keeps exactly the listings whose
    coerced price is a number within the inclusive range; a listing whose
    coerced price is missing is excluded, and so no listing of the filtered
    view has a missing price. *)
Theorem price_filter_excludes_unknown df price_range bedrooms property_types out :
  "price_numeric" ∈ columns df →
  apply_filters df price_range bedrooms property_types = Ok out →
  ∃ view, filter_price df price_range = Ok view
    ∧ rows view = filter (λ r, price_in_range price_range r = true) (rows df)
    ∧ rows out `sublist_of` rows view
    ∧ ∀ r, r ∈ rows out →
        ∃ q, cell "price_numeric" r = Num q
             ∧ (price_range.1 <= q)%Q ∧ (q <= price_range.2)%Q.
Proof.
  intros Hc H. unfold apply_filters in H. do 2 inv_bind H.
  destruct (filter_price_rows _ _ _ Hc Ha) as [_ Hr].
  apply filter_isin_sublist in Ha0 as [_ H2].
  apply filter_isin_sublist in H as [_ H3].
  assert (rows out `sublist_of` rows a) as Hs by (etrans; done).
  exists a. repeat split; try done.
  intros r Hin. eapply elem_of_sublist in Hin; [|done].
  rewrite Hr in Hin. apply list_elem_of_filter in Hin as [Hp _].
  unfold price_in_range in Hp. destruct (cell "price_numeric" r); try done.
  apply andb_true_iff in Hp as [?%Qle_bool_iff ?%Qle_bool_iff]. eauto.
Qed.



(** ** Neighbourhood extraction *)






(** ** Normalisation *)

Lemma astype_float_ignore_failure py_float (col : list value) s :
  Str s ∈ col → py_float s = None → astype_float_ignore py_float col = col.
Proof.
  intros Hin Hs. unfold astype_float_ignore, astype_float.
  assert (mapM (λ v, match v with
                     | Str s => of_float <$> py_float s
                     | _ => Some v
                     end) col = None) as ->; [|done].
  apply mapM_None, Exists_exists. exists (Str s). split; [done|]. by rewrite Hs.
Qed.

(** C3, on the code. One price that [float] refuses leaves the whole column
    [price_numeric] as text: the listing with the malformed price keeps its
    text instead of a missing value, and the price of the other listing, a
    number when that listing is processed alone, is the text it was parsed
    from. *)
Theorem malformed_price_keeps_text :
  column "price_numeric"
    (process_listings_data decimal_float parse_decimal listings_malformed)
  = Ok [Str "100"; Str "Contact agent"]
  ∧ column "price_numeric"
      (process_listings_data decimal_float parse_decimal listings_wellformed)
    = Ok [Num 100].
Proof. split; vm_compute; reflexivity. Qed.

(** ** Sorting *)

Lemma take_idx_lookup {A} (l : list A) idx k i y :
  take_idx l idx = Ok k → k !! i = Some y →
  ∃ j, idx !! i = Some j ∧ l !! j = Some y.
Proof.
  intros H Hi. destruct (mapM_Ok_lookup _ _ _ _ _ H Hi) as (j & Hj & Hl).
  exists j. split; [done|]. destruct (l !! j); by inversion Hl.
Qed.

Lemma select_seq_lookup {A} (f : A → bool) (l : list A) s j :
  j ∈ select (f <$> l) (seq s (length l)) →
  ∃ v, l !! (j - s) = Some v ∧ f v = true ∧ s ≤ j.
Proof.
  revert s. induction l as [|x l IH]; intros s Hj; simpl in Hj.
  - by apply elem_of_nil in Hj.
  - destruct (f x) eqn:Hx.
    + apply elem_of_cons in Hj as [->|Hj].
      * exists x. by rewrite Nat.sub_diag.
      * destruct (IH _ Hj) as (v & Hv & Hf & Hle). exists v.
        replace (j - s) with (S (j - S s)) by lia. repeat split; [done..|lia].
    + destruct (IH _ Hj) as (v & Hv & Hf & Hle). exists v.
      replace (j - s) with (S (j - S s)) by lia. repeat split; [done..|lia].
Qed.

Section SortingProperties.

Variable np_argsort : list value → list nat.

(** The indexer of a sort is a run of positions of values that are not
    missing, followed by positions of missing values. *)
Lemma nargsort_nulls_last items ascending indexer :
  nargsort np_argsort items ascending = Ok indexer →
  ∃ known missing, indexer = known ++ missing
    ∧ Forall (λ j, ∃ v, items !! j = Some v ∧ isna v = false) known
    ∧ Forall (λ j, ∃ v, items !! j = Some v ∧ isna v = true) missing.
Proof.
  intros H. unfold nargsort in H.
  destruct (existsb is_num _ && existsb is_str _); [discriminate|].
  inv_bind H. inversion H; subst. eexists _, _. split; [done|]. split.
  - assert (Forall (λ j, ∃ v, items !! j = Some v ∧ isna v = false) a) as Ha'.
    { apply Forall_lookup. intros i j Hi.
      destruct (take_idx_lookup _ _ _ _ _ Ha Hi) as (p & _ & Hp).
      apply list_elem_of_lookup_2 in Hp.
      assert (j ∈ select (negb <$> (isna <$> items)) (seq 0 (length items))) as Hj.
      { destruct ascending; [done|]. by apply elem_of_reverse. }
      rewrite <- list_fmap_compose in Hj.
      apply select_seq_lookup in Hj as (v & Hv & Hf & _).
      rewrite Nat.sub_0_r in Hv. exists v. split; [done|].
      simpl in Hf. by apply negb_true_iff in Hf. }
    destruct ascending; [done|]. by apply Forall_reverse.
  - apply Forall_forall. intros j Hj.
    apply select_seq_lookup in Hj as (v & Hv & Hf & _).
    rewrite Nat.sub_0_r in Hv. eauto.
Qed.

Lemma sort_values_nulls_last df key ascending sorted :
  sort_values np_argsort df key ascending = Ok sorted →
  columns sorted = columns df ∧ nulls_last key (rows sorted).
Proof.
  intros H. unfold sort_values, getitem in H. case_decide; [|discriminate].
  simpl in H. do 2 inv_bind H. inversion H; subst. simpl. split; [done|].
  destruct (nargsort_nulls_last _ _ _ Ha) as (known & missing & -> & Hk & Hm).
  assert (∀ i r, a0 !! i = Some r →
    if decide (i < length known) then isna (cell key r) = false
    else isna (cell key r) = true) as Hpos.
  { intros i r Hi. destruct (take_idx_lookup _ _ _ _ _ Ha0 Hi) as (j & Hj & Hr).
    assert (∀ v, (cell key <$> rows df) !! j = Some v → v = cell key r) as Hv.
    { intros v. rewrite list_lookup_fmap, Hr. simpl. congruence. }
    case_decide.
    - rewrite lookup_app_l in Hj by done.
      destruct (Forall_lookup_1 _ _ _ _ Hk Hj) as (v & Hv' & Hna).
      by rewrite <- (Hv _ Hv').
    - rewrite lookup_app_r in Hj by lia.
      destruct (Forall_lookup_1 _ _ _ _ Hm Hj) as (v & Hv' & Hna).
      by rewrite <- (Hv _ Hv'). }
  intros i j ri rj Hij Hi Hj Hna.
  specialize (Hpos i ri Hi) as Hi'. specialize (Hpos j rj Hj) as Hj'.
  repeat case_decide; try done; try lia. congruence.
Qed.

(** After a descending sort, no listing with a value for the key comes
    after a listing whose value is missing, in the sorted view and in its
    first [show_count] rows. *)
Lemma sort_and_display_nulls_last df sort_by show_count out :
  sort_by ∈ columns df →
  sort_and_display np_argsort df sort_by show_count = Ok out →
  nulls_last sort_by (rows out).
Proof.
  intros Hc H. unfold sort_and_display in H. rewrite decide_True in H by done.
  inv_bind H. inversion H; subst. simpl.
  destruct (sort_values_nulls_last _ _ _ _ Ha) as [_ Hn].
  intros i j ri rj Hij Hi Hj.
  apply lookup_take_Some in Hi as [Hi _]. apply lookup_take_Some in Hj as [Hj _].
  by apply (Hn i j).
Qed.

(** C6, as the code has it. A sort key that is not a column of the view
    raises nothing: the first [show_count] rows come back in the order of the
    view. *)
Theorem unknown_sort_key_is_silent df sort_by show_count :
  sort_by ∉ columns df →
  sort_and_display np_argsort df sort_by show_count = Ok (head df show_count).
Proof. intros Hc. unfold sort_and_display. by rewrite decide_False. Qed.

End SortingProperties.
(** ** The order of the group keys *)

Lemma string_compare_refl s : String.compare s s = Eq.
Proof.
  destruct (String.compare s s) eqn:H; [done|..];
    pose proof (String.compare_antisym s s) as Ha; rewrite H in Ha; done.
Qed.

Lemma string_ltb_leb s t :
  String.ltb s t = true ↔ String.leb s t = true ∧ s ≠ t.
Proof.
  unfold String.ltb, String.leb. split.
  - intros H. destruct (String.compare s t) eqn:Hc; try done.
    split; [done|]. intros ->. by rewrite string_compare_refl in Hc.
  - intros [H Hne]. destruct (String.compare s t) eqn:Hc; try done.
    by apply String.compare_eq_iff in Hc.
Qed.

Lemma string_ltb_trans s t u :
  String.ltb s t = true → String.ltb t u = true → String.ltb s u = true.
Proof.
  rewrite !string_ltb_leb. intros [Hst Hne] [Htu Hne']. split.
  - apply Is_true_true. apply Is_true_true in Hst, Htu.
    by apply (transitivity (R:=String.le) (y:=t)).
  - intros ->. apply Hne. by apply String.leb_antisym.
Qed.

#[global] Instance value_lt_trans : Transitive value_lt.
Proof.
  intros [|p|s] [|q|t] [|r|u]; unfold value_lt, value_ltb; try done.
  - destruct (Qcompare p q) eqn:H1; try done.
    destruct (Qcompare q r) eqn:H2; try done. intros _ _.
    pose proof (proj1 (Qlt_alt p r)
      (Qlt_trans _ _ _ (proj2 (Qlt_alt p q) H1) (proj2 (Qlt_alt q r) H2))) as H3.
    by rewrite H3.
  - apply string_ltb_trans.
Qed.

Lemma value_trichotomy a b :
  isna a = false → isna b = false →
  value_ltb a b = true ∨ value_eqb a b = true ∨ value_ltb b a = true.
Proof.
  destruct a as [|p|s], b as [|q|t]; unfold value_ltb, value_eqb, isna;
    try done; auto.
  - intros _ _. destruct (Qcompare_spec p q) as [H|H|H].
    + right; left. by apply Qeq_bool_iff.
    + by left.
    + right; right. by rewrite (proj1 (Qlt_alt q p) H).
  - intros _ _. unfold String.ltb. rewrite (String.compare_antisym t s).
    destruct (String.compare s t) eqn:H; simpl; auto.
    right; left. apply String.compare_eq_iff in H as ->. apply String.eqb_refl.
Qed.

(** ** Grouping *)

Lemma insert_key_elem k ks x :
  x ∈ insert_key k ks → x = k ∨ x ∈ ks.
Proof.
  induction ks as [|k' ks IH]; simpl.
  - intros ?%list_elem_of_singleton. auto.
  - destruct (value_ltb k k'); [by intros [->|?]%elem_of_cons; auto|].
    destruct (value_eqb k k'); [auto|].
    intros [->|H]%elem_of_cons; [right; left|].
    destruct (IH H) as [->|?]; [auto | right; by right].
Qed.

Lemma insert_key_sorted k ks :
  isna k = false → Forall (λ x, isna x = false) ks →
  StronglySorted value_lt ks → StronglySorted value_lt (insert_key k ks).
Proof.
  intros Hk Hna Hs. induction Hs as [|k' ks Hs IH Hall]; simpl.
  - repeat constructor.
  - apply Forall_cons in Hna as [Hk' Hna].
    destruct (value_ltb k k') eqn:Hlt.
    + constructor; [by constructor|]. constructor; [done|].
      eapply Forall_impl; [done|]. intros x Hx. by trans k'.
    + destruct (value_eqb k k') eqn:Heq; [by constructor|].
      constructor; [auto|]. apply Forall_forall. intros x Hx.
      apply insert_key_elem in Hx as [->|Hx].
      * destruct (value_trichotomy k k') as [?|[?|?]]; congruence.
      * by eapply Forall_forall in Hall.
Qed.

Lemma group_keys_notna col : Forall (λ x, isna x = false) (group_keys col).
Proof.
  unfold group_keys. apply Forall_forall. intros x.
  assert (Forall (λ v, isna v = false) (filter (λ v, isna v = false) col)) as H.
  { apply Forall_forall. by intros v [? _]%list_elem_of_filter. }
  induction H as [|v l Hv _ IH]; simpl; [by intros ?%elem_of_nil|].
  intros [->|?]%insert_key_elem; auto.
Qed.

(** The group keys come in strictly ascending order. *)
Lemma group_keys_sorted col : StronglySorted value_lt (group_keys col).
Proof.
  unfold group_keys.
  assert (Forall (λ v, isna v = false) (filter (λ v, isna v = false) col)) as H.
  { apply Forall_forall. by intros v [? _]%list_elem_of_filter. }
  induction H as [|v l Hv Hl IH]; simpl; [constructor|].
  apply insert_key_sorted; [done| |done].
  apply Forall_forall. intros x Hx. clear IH.
  induction Hl as [|w l Hw _ IH]; simpl in Hx; [by apply elem_of_nil in Hx|].
  apply insert_key_elem in Hx as [->|?]; auto.
Qed.

Lemma value_eqb_refl v : value_eqb v v = true.
Proof.
  destruct v; simpl; [done| apply Qeq_bool_refl | apply String.eqb_refl].
Qed.

Lemma insert_key_keeps k ks x : x ∈ ks → x ∈ insert_key k ks.
Proof.
  induction ks as [|k' ks IH]; simpl; [by intros ?%elem_of_nil|].
  destruct (value_ltb k k'); [by right|].
  destruct (value_eqb k k'); [done|].
  intros [->|?]%elem_of_cons; [left | right; auto].
Qed.

Lemma insert_key_has k ks : ∃ k', k' ∈ insert_key k ks ∧ value_eqb k k' = true.
Proof.
  induction ks as [|k' ks (x & Hx & Hk)]; simpl.
  - exists k. split; [by left | apply value_eqb_refl].
  - destruct (value_ltb k k').
    { exists k. split; [by left | apply value_eqb_refl]. }
    destruct (value_eqb k k') eqn:Heq.
    { exists k'. split; [by left | done]. }
    exists x. split; [by right | done].
Qed.

(** Every value of the column that is not missing has its group. *)
Lemma group_keys_complete col v :
  v ∈ col → isna v = false → ∃ k, k ∈ group_keys col ∧ value_eqb v k = true.
Proof.
  intros Hin Hna. unfold group_keys.
  assert (v ∈ filter (λ v, isna v = false) col) as H
    by by apply list_elem_of_filter.
  induction (filter (λ v, isna v = false) col) as [|w l IH]; simpl.
  - by apply elem_of_nil in H.
  - apply elem_of_cons in H as [->|H]; [apply insert_key_has|].
    destruct (IH H) as (k & Hk & Heq).
    exists k. split; [by apply insert_key_keeps | done].
Qed.

(** Every group is the group of a value of the column. *)
Lemma group_keys_sound col k : k ∈ group_keys col → k ∈ col ∧ isna k = false.
Proof.
  unfold group_keys. intros H.
  assert (k ∈ filter (λ v, isna v = false) col) as [? ?]%list_elem_of_filter; [|done].
  induction (filter (λ v, isna v = false) col) as [|v l IH]; simpl in H; [done|].
  apply insert_key_elem in H as [->|?]; [left | right; auto].
Qed.

Lemma StronglySorted_sublist {A} (R : relation A) (k l : list A) :
  k `sublist_of` l → StronglySorted R l → StronglySorted R k.
Proof.
  induction 1 as [|x k l Hs IH|x k l Hs IH]; intros Hl.
  - constructor.
  - apply StronglySorted_inv in Hl as [Hl Hall]. constructor; [auto|].
    apply Forall_forall. intros y Hy. eapply Forall_forall in Hall; [done|].
    by eapply elem_of_sublist.
  - apply StronglySorted_inv in Hl as [Hl _]. auto.
Qed.

(** ** The statistics of a group *)

Lemma count_group (k : value) (rs : list (gmap string value)) :
  count (cell "price_numeric"
           <$> filter (λ r, value_eqb (cell "neighborhood" r) k = true) rs)
  = length (filter (λ r, priced_in k r = true) rs).
Proof.
  unfold count. induction rs as [|r rs IH]; [done|].
  destruct (value_eqb (cell "neighborhood" r) k) eqn:Hk.
  - rewrite (filter_cons_True (λ r, value_eqb _ k = true)) by done.
    rewrite fmap_cons.
    destruct (isna (cell "price_numeric" r)) eqn:Hna.
    + rewrite (filter_cons_False (λ v, isna v = false)) by by rewrite Hna.
      rewrite (filter_cons_False (λ r, priced_in k r = true)); [done|].
      unfold priced_in. by rewrite Hk, Hna.
    + rewrite (filter_cons_True (λ v, isna v = false)) by done.
      rewrite (filter_cons_True (λ r, priced_in k r = true)).
      * simpl. by rewrite IH.
      * unfold priced_in. by rewrite Hk, Hna.
  - rewrite (filter_cons_False (λ r, value_eqb _ k = true)) by by rewrite Hk.
    rewrite (filter_cons_False (λ r, priced_in k r = true)); [done|].
    unfold priced_in. by rewrite Hk.
Qed.

Lemma mapM_agg_group by_ (rs : list (gmap string value)) keys stats :
  mapM agg_group
    ((λ k, (k, filter (λ r, value_eqb (cell by_ r) k = true) rs)) <$> keys)
  = Ok stats →
  Forall2 (λ k s, neighborhood s = k
             ∧ agg_count s
               = count (cell "price_numeric"
                          <$> filter (λ r, value_eqb (cell by_ r) k = true) rs))
          keys stats.
Proof.
  revert stats. induction keys as [|k keys IH]; intros stats H; simpl in H.
  - inversion H. constructor.
  - do 2 inv_bind H. inversion H; subst. constructor; [|auto].
    unfold agg_group in Ha. inv_bind Ha. by inversion Ha.
Qed.

Lemma filter_stats_keys rs keys stats :
  Forall2 (λ k s, neighborhood s = k
             ∧ agg_count s = length (filter (λ r, priced_in k r = true) rs))
          keys stats →
  neighborhood <$> filter (λ s, 3 ≤ agg_count s) stats
  = filter (λ k, survives rs k = true) keys.
Proof.
  induction 1 as [|k s keys stats [Hk Hc] _ IH]; [done|].
  assert (3 ≤ agg_count s ↔ survives rs k = true) as Hiff.
  { unfold survives. by rewrite Hc, Nat.leb_le. }
  destruct (decide (3 ≤ agg_count s)) as [Hle|Hle].
  - rewrite (filter_cons_True (λ s, 3 ≤ agg_count s)) by done.
    rewrite (filter_cons_True (λ k, survives rs k = true)) by by apply Hiff.
    rewrite fmap_cons. by f_equal.
  - rewrite (filter_cons_False (λ s, 3 ≤ agg_count s)) by done.
    rewrite (filter_cons_False (λ k, survives rs k = true)); [done|].
    by rewrite <- Hiff.
Qed.

(** The rows of the chart, when there is one. *)
Lemma create_neighborhood_chart_rows df out :
  create_neighborhood_chart df = Ok (Some out) →
  ∃ stats,
    out = take 10 (filter (λ s, 3 ≤ agg_count s) stats)
    ∧ Forall2 (λ k s, neighborhood s = k
                 ∧ agg_count s = length (filter (λ r, priced_in k r = true) (rows df)))
              (group_keys (cell "neighborhood" <$> rows df)) stats.
Proof.
  intros H. unfold create_neighborhood_chart in H.
  destruct (empty df || _); [discriminate|].
  do 3 inv_bind H. inversion H; subst. clear H Ha0.
  unfold groupby, getitem in Ha. case_decide; [|discriminate].
  simpl in Ha. inversion Ha; subst. clear Ha.
  exists a1. split; [done|]. apply mapM_agg_group in Ha1.
  eapply Forall2_impl; [done|]. intros k s [-> Hc]. split; [done|].
  by rewrite Hc, count_group.
Qed.

(** C4, as the code has it. The groups of the chart come in ascending order
    of their neighbourhood, which is the order in which [groupby] sorts its
    keys; they are the first ten of the groups that meet the threshold. *)
Theorem chart_groups_ascending df out :
  create_neighborhood_chart df = Ok (Some out) →
  StronglySorted value_lt (neighborhood <$> out)
  ∧ length out ≤ 10
  ∧ neighborhood <$> out
    = take 10 (filter (λ k, survives (rows df) k = true)
                      (group_keys (cell "neighborhood" <$> rows df))).
Proof.
  intros H. apply create_neighborhood_chart_rows in H as (stats & -> & Hs).
  assert (neighborhood <$> take 10 (filter (λ s, 3 ≤ agg_count s) stats)
          = take 10 (filter (λ k, survives (rows df) k = true)
                            (group_keys (cell "neighborhood" <$> rows df)))) as Heq.
  { rewrite fmap_take. f_equal. by apply filter_stats_keys. }
  split; [|split; [|done]].
  - rewrite Heq. eapply StronglySorted_sublist; [|apply group_keys_sorted].
    etrans; [apply sublist_take | apply sublist_filter].
  - rewrite length_take. lia.
Qed.

(** C5, as the code has it. The count of a group is the number of its
    listings whose price is not missing; no group of the chart has a count
    below three; and the view with neighbourhoods A, A, A, B, B and prices
    100 to 500 gives the single row of A with mean 200 and count 3. *)
Theorem chart_counts_priced_listings :
  (∀ df out, create_neighborhood_chart df = Ok (Some out) →
     Forall (λ s, agg_count s
                  = length (filter (λ r, priced_in (neighborhood s) r = true) (rows df))
                  ∧ 3 ≤ agg_count s) out)
  ∧ create_neighborhood_chart view_five
    = Ok (Some [{| neighborhood := Str "A"; avg_price := Num 200; agg_count := 3 |}]).
Proof.
  split; [|vm_compute; reflexivity].
  intros df out H. apply create_neighborhood_chart_rows in H as (stats & -> & Hs).
  apply Forall_forall. intros s Hin.
  apply elem_of_take in Hin as (i & Hin%list_elem_of_lookup_2 & _).
  apply list_elem_of_filter in Hin as [Hle Hin]. split; [|done].
  apply list_elem_of_lookup in Hin as [j Hj].
  destruct (Forall2_lookup_r _ _ _ _ _ Hs Hj) as (k & _ & <- & Hc). done.
Qed.
Lemma take_idx_total {A} (l : list A) idx :
  Forall (λ i, i < length l) idx → ∃ k, take_idx l idx = Ok k.
Proof.
  intros H. apply mapM_total. eapply Forall_impl; [done|]. intros i Hi. simpl.
  destruct (lookup_lt_is_Some_2 l i Hi) as [x ->]. by eexists.
Qed.

Lemma take_idx_elem {A} (l : list A) idx k y :
  take_idx l idx = Ok k → y ∈ k → y ∈ l.
Proof.
  revert k. induction idx as [|i idx IH]; intros k H Hy; simpl in H.
  - inversion H; subst. by apply elem_of_nil in Hy.
  - apply bind_Ok in H as (x & Hx & H). apply bind_Ok in H as (k' & Hk & H).
    inversion H; subst. apply elem_of_cons in Hy as [->|Hy]; [|eauto].
    destruct (l !! i) eqn:Hl; inversion Hx; subst.
    by eapply list_elem_of_lookup_2.
Qed.

Lemma select_length {A B} (mask : list bool) (l : list A) (k : list B) :
  length l = length k → length (select mask l) = length (select mask k).
Proof.
  revert l k. induction mask as [|b mask IH]; intros [|x l] [|y k] H;
    simpl in *; try done. destruct b; simpl; auto.
Qed.

Lemma select_seq_bound (mask : list bool) s n j :
  j ∈ select mask (seq s n) → j < s + n.
Proof.
  revert s n. induction mask as [|b mask IH]; intros s [|n] Hj; simpl in Hj;
    try by apply elem_of_nil in Hj.
  destruct b.
  - apply elem_of_cons in Hj as [->|Hj]; [lia|]. apply IH in Hj. lia.
  - apply IH in Hj. lia.
Qed.

Section SortingContract.

Variable np_argsort : list value → list nat.

(** The contract of [argsort] that the totality of the sort rests on: the
    result is a permutation of the positions of the array. *)
Hypothesis np_argsort_perm : ∀ a, np_argsort a ≡ₚ seq 0 (length a).

(** A column whose values are all numbers, or all strings, is sorted
    without an exception. *)
Lemma sort_values_total df key ascending :
  key ∈ columns df →
  existsb is_num (cell key <$> rows df) && existsb is_str (cell key <$> rows df)
    = false →
  ∃ sorted, sort_values np_argsort df key ascending = Ok sorted.
Proof.
  intros Hc Hmix. unfold sort_values, getitem. rewrite decide_True by done.
  simpl. set (items := cell key <$> rows df) in *. unfold nargsort.
  set (known := select (negb <$> (isna <$> items)) items).
  set (known_idx := select (negb <$> (isna <$> items)) (seq 0 (length items))).
  set (a := if ascending then known else reverse known).
  set (ai := if ascending then known_idx else reverse known_idx).
  assert (length a = length ai) as Hlen.
  { unfold a, ai. destruct ascending; rewrite ?length_reverse;
      apply select_length; by rewrite length_seq. }
  assert (existsb is_num a && existsb is_str a = false) as ->.
  { destruct (existsb is_num a && existsb is_str a) eqn:Ha; [|done].
    apply andb_true_iff in Ha as [(x & Hx & Hnum)%existsb_exists
                                  (y & Hy & Hstr)%existsb_exists].
    assert (∀ z, In z a → z ∈ items) as Hin.
    { intros z Hz%list_elem_of_In. unfold a in Hz.
      assert (z ∈ known) as Hk by (destruct ascending; [done|by apply elem_of_reverse]).
      eapply elem_of_sublist; [done | apply select_sublist]. }
    rewrite <- Hmix. symmetry. apply andb_true_iff.
    split; apply existsb_exists; eexists; split; try done;
      apply list_elem_of_In; auto. }
  destruct (take_idx_total ai (np_argsort a)) as [indexer Hix].
  { apply Forall_forall. intros i Hi. rewrite np_argsort_perm in Hi.
    apply elem_of_seq in Hi. lia. }
  rewrite Hix. simpl.
  destruct (take_idx_total (rows df)
    ((if ascending then indexer else reverse indexer)
       ++ select (isna <$> items) (seq 0 (length items)))) as [sorted ->];
    [|simpl; eauto].
  assert (length items = length (rows df)) as Hl by apply length_fmap.
  apply Forall_app. split.
  - apply Forall_forall. intros j Hj.
    assert (j ∈ indexer) as Hj'
      by (destruct ascending; [done | by apply elem_of_reverse]).
    eapply take_idx_elem in Hj'; [|done]. unfold ai in Hj'.
    assert (j ∈ known_idx) as Hk
      by (destruct ascending; [done | by apply elem_of_reverse]).
    apply select_seq_bound in Hk. lia.
  - apply Forall_forall. intros j Hj. apply select_seq_bound in Hj. lia.
Qed.

End SortingContract.

(** ** The pipeline on the example frames *)

Ltac by_computation := vm_compute; reflexivity.

Lemma apply_filters_subsequence_witness :
  rows sample_priced `sublist_of` rows dataset_sample
  ∧ length (rows sample_priced) ≤ length (rows dataset_sample).
Proof.
  apply (apply_filters_subsequence dataset_sample sample_range
           [Num 3; Num 4] [Str "House"]).
  by_computation.
Defined.

Lemma empty_selection_skips_filter_witness :
  rows sample_priced
  = filter (λ r, price_in_range sample_range r
                 && passes "property_type" [Str "House"] r = true)
           (rows dataset_sample)
  ∧ rows (boolean_index dataset_sample [false; false; false])
    = filter (λ r, price_in_range sample_range r
                   && passes "bedrooms_numeric" [Num 2] r = true)
             (rows dataset_sample).
Proof.
  split.
  - apply (empty_selection_skips_filter dataset_sample sample_range [Str "House"]);
      by_computation.
  - apply (empty_selection_skips_filter dataset_sample sample_range [Num 2]);
      by_computation.
Defined.

(** Nothing is selected in either multiselect, and the view is not empty:
    it holds the two listings of the sample whose price is known. *)
Lemma empty_selection_keeps_listings :
  apply_filters dataset_sample sample_range [] [] = Ok sample_priced
  ∧ length (rows sample_priced) = 2.
Proof. split; by_computation. Qed.

Lemma price_filter_excludes_unknown_witness :
  ∃ view, filter_price dataset_sample sample_range = Ok view
    ∧ rows view = filter (λ r, price_in_range sample_range r = true)
                         (rows dataset_sample)
    ∧ rows sample_priced `sublist_of` rows view
    ∧ ∀ r, r ∈ rows sample_priced →
        ∃ q, cell "price_numeric" r = Num q
             ∧ (sample_range.1 <= q)%Q ∧ (q <= sample_range.2)%Q.
Proof.
  apply (price_filter_excludes_unknown dataset_sample sample_range [] []);
    by_computation.
Defined.

(** The second listing of the sample has no price; the range holds every
    price, and the listing is not in the view. *)
Lemma unknown_price_is_excluded :
  cell "price_numeric" <$> rows dataset_sample = [Num 250000; NaN; Num 900000]
  ∧ column "price_numeric" (apply_filters dataset_sample sample_range [] [])
    = Ok [Num 250000; Num 900000].
Proof. split; by_computation. Qed.

(** A frame whose prices are all numbers has no string to strip: the
    normalisation raises. *)
Lemma numeric_prices_raise :
  process_listings_data decimal_float parse_decimal
    [listing (Str "1 Elm St, Springfield") (Num 450000) (Num 2) (Num 1)
             (Num 900) (Str "House")]
  = Err AttributeError.
Proof. by_computation. Qed.

Lemma chart_groups_ascending_witness :
  let out := [{| neighborhood := Str "A"; avg_price := Num 500; agg_count := 3 |};
              {| neighborhood := Str "B"; avg_price := Num 200; agg_count := 3 |}] in
  StronglySorted value_lt (neighborhood <$> out)
  ∧ length out ≤ 10
  ∧ neighborhood <$> out
    = take 10 (filter (λ k, survives (rows view_b_then_a) k = true)
                      (group_keys (cell "neighborhood" <$> rows view_b_then_a))).
Proof.
  apply (chart_groups_ascending view_b_then_a). by_computation.
Defined.

(** B is seen first in the view, and A is first in the chart. *)
Lemma chart_not_first_seen :
  first_seen (cell "neighborhood" <$> rows view_b_then_a) = [Str "B"; Str "A"]
  ∧ create_neighborhood_chart view_b_then_a
    = Ok (Some [{| neighborhood := Str "A"; avg_price := Num 500; agg_count := 3 |};
                {| neighborhood := Str "B"; avg_price := Num 200; agg_count := 3 |}]).
Proof. split; by_computation. Qed.

Lemma chart_counts_priced_listings_witness :
  Forall (λ s, agg_count s
               = length (filter (λ r, priced_in (neighborhood s) r = true)
                                (rows view_five))
               ∧ 3 ≤ agg_count s)
         [{| neighborhood := Str "A"; avg_price := Num 200; agg_count := 3 |}].
Proof.
  apply (proj1 chart_counts_priced_listings view_five). by_computation.
Defined.

(** The group of A has three listings, one without a price: its count is
    two, and the chart drops it. *)
Lemma chart_count_skips_unpriced :
  length (filter (λ r, value_eqb (cell "neighborhood" r) (Str "A") = true)
                 (rows view_unpriced)) = 3
  ∧ create_neighborhood_chart view_unpriced = Ok (Some []).
Proof. split; by_computation. Qed.

Lemma insert_idx_perm keys i sorted : insert_idx keys i sorted ≡ₚ i :: sorted.
Proof.
  induction sorted as [|j sorted IH]; simpl; [done|].
  destruct (value_ltb _ _); [|done]. rewrite IH. apply Permutation_swap.
Qed.

(** The reference argsort meets the contract of [argsort]. *)
Lemma insertion_argsort_perm keys :
  insertion_argsort keys ≡ₚ seq 0 (length keys).
Proof.
  unfold insertion_argsort. induction (seq 0 (length keys)) as [|i l IH]; [done|].
  simpl. by rewrite insert_idx_perm, IH.
Qed.

Lemma unknown_sort_key_is_silent_witness :
  sort_and_display insertion_argsort dataset_sample "lot_size" 2
  = Ok (head dataset_sample 2).
Proof.
  apply (unknown_sort_key_is_silent insertion_argsort dataset_sample "lot_size" 2).
  vm_compute. discriminate.
Defined.

(** The sample has no column [lot_size]; sorting by it raises nothing and
    gives the first two listings in the order of the sample. *)
Lemma unknown_sort_key_no_error :
  bool_decide ("lot_size" ∈ columns dataset_sample) = false
  ∧ sort_and_display insertion_argsort dataset_sample "lot_size" 2
    = Ok {| columns := columns dataset_sample;
            rows := take 2 (rows dataset_sample) |}.
Proof. split; by_computation. Qed.

(** * Further properties *)

(** ** What the normalisation returns *)

Lemma Ok_inj {A} (a b : A) : Ok a = Ok b → a = b.
Proof. by intros [=]. Qed.

Lemma fmap_zip_with_insert {A} (g : gmap string value → A) c
    (ls : list (gmap string value)) (col : list value) :
  g <$> zip_with (λ r v, <[c:=v]> r) ls col
  = zip_with (λ r v, g (<[c:=v]> r)) ls col.
Proof.
  revert col. induction ls as [|l ls IH]; intros [|v col]; simpl; try done.
  by rewrite <- IH.
Qed.

Lemma zip_with_pointwise {A B C} (f g : A → B → C) (l : list A) (k : list B) :
  (∀ x y, f x y = g x y) → zip_with f l k = zip_with g l k.
Proof.
  intros H. revert k. induction l as [|x l IH]; intros [|y k]; simpl; try done.
  by rewrite H, IH.
Qed.

Lemma setitem_fmap df c (f : gmap string value → value) :
  rows (setitem df c (f <$> rows df)) = (λ r, <[c := f r]> r) <$> rows df.
Proof.
  unfold setitem. simpl. induction (rows df) as [|r rs IH]; [done|].
  simpl. by f_equal.
Qed.

Lemma cell_insert_ne c c' v (r : gmap string value) :
  c ≠ c' → cell c' (<[c:=v]> r) = cell c' r.
Proof. intros H. unfold cell. by rewrite lookup_insert_ne. Qed.

Lemma cell_insert_eq c v (r : gmap string value) : cell c (<[c:=v]> r) = v.
Proof. unfold cell. by rewrite lookup_insert_eq. Qed.

Lemma getitem_Ok df c col :
  getitem df c = Ok col → c ∈ columns df ∧ col = cell c <$> rows df.
Proof. unfold getitem. case_decide; [|done]. by intros [= <-]. Qed.

Lemma str_accessor_Ok col col' : str_accessor col = Ok col' → col' = col.
Proof. unfold str_accessor. destruct (is_numeric_dtype col); [done|]. by intros [= <-]. Qed.

Lemma elem_of_columns_of_records (listings : list (gmap string value)) k :
  k ∈ columns (DataFrame_of_records listings) ↔ ∃ l, l ∈ listings ∧ is_Some (l !! k).
Proof.
  unfold DataFrame_of_records. simpl. rewrite elem_of_union_list. split.
  - intros (X & HX & Hk). apply list_elem_of_fmap in HX as (l & -> & Hl).
    exists l. split; [done|]. by apply elem_of_dom.
  - intros (l & Hl & Hk). exists (dom l). split; [|by apply elem_of_dom].
    apply list_elem_of_fmap. eauto.
Qed.

Lemma elem_of_columns_setitem df c col k :
  k ∈ columns (setitem df c col) → k ≠ c → k ∈ columns df.
Proof.
  unfold setitem. simpl. intros [Hk%elem_of_singleton|Hk]%elem_of_union Hne; done.
Qed.

Lemma astype_float_ignore_length py_float col :
  length (astype_float_ignore py_float col) = length col.
Proof.
  unfold astype_float_ignore, astype_float.
  destruct (mapM _ col) as [k|] eqn:H; [|done]. simpl.
  by apply length_mapM in H.
Qed.

Lemma fmap_zip_with_normalised_price pd_numeric
    (ls : list (gmap string value)) (col : list value) :
  length col = length ls →
  cell "price_numeric" <$> zip_with (normalised pd_numeric) ls col = col.
Proof.
  revert col. induction ls as [|l ls IH]; intros [|p col] Hlen; simpl in *;
    try done.
  f_equal; [|apply IH; lia].
  unfold normalised. rewrite !cell_insert_ne by done. apply cell_insert_eq.
Qed.

Section Normalisation.

Variable py_float : string → option (option Q).
Variable pd_numeric : string → option Q.

(** What a successful normalisation returns. *)
Lemma process_listings_data_Ok listings df :
  listings ≠ [] →
  process_listings_data py_float pd_numeric listings = Ok df →
  Forall (λ k, k ∈ columns (DataFrame_of_records listings)) required_keys
  ∧ columns df
    = list_to_set derived_columns ∪ columns (DataFrame_of_records listings)
  ∧ rows df
    = zip_with (normalised pd_numeric) listings
        (astype_float_ignore py_float
           (str_replace_price <$> (cell "price" <$> listings))).
Proof.
  intros Hne H. unfold process_listings_data in H.
  destruct listings as [|l0 ls]; [done|]. clear Hne.
  set (listings := l0 :: ls) in *.
  set (df0 := DataFrame_of_records listings) in *.
  apply bind_Ok in H as (price & Hprice & H).
  apply getitem_Ok in Hprice as [Hk1 ->].
  apply bind_Ok in H as (price_str & Hstr & H).
  apply str_accessor_Ok in Hstr as ->.
  set (P := astype_float_ignore py_float
              (str_replace_price <$> (cell "price" <$> rows df0))) in *.
  set (df1 := setitem df0 "price_numeric" P) in *.
  apply bind_Ok in H as (bedrooms & Hb & H).
  apply getitem_Ok in Hb as [Hk2 ->].
  rewrite <- list_fmap_compose in H.
  match type of H with context [setitem df1 ?c (?f <$> rows df1)] =>
    set (df2 := setitem df1 c (f <$> rows df1)) in *;
    pose proof (setitem_fmap df1 c f) as Hr2; fold df2 in Hr2 end.
  apply bind_Ok in H as (bathrooms & Hb & H).
  apply getitem_Ok in Hb as [Hk3 ->].
  rewrite <- list_fmap_compose in H.
  match type of H with context [setitem df2 ?c (?f <$> rows df2)] =>
    set (df3 := setitem df2 c (f <$> rows df2)) in *;
    pose proof (setitem_fmap df2 c f) as Hr3; fold df3 in Hr3 end.
  apply bind_Ok in H as (sqft & Hb & H).
  apply getitem_Ok in Hb as [Hk4 ->].
  rewrite <- list_fmap_compose in H.
  match type of H with context [setitem df3 ?c (?f <$> rows df3)] =>
    set (df4 := setitem df3 c (f <$> rows df3)) in *;
    pose proof (setitem_fmap df3 c f) as Hr4; fold df4 in Hr4 end.
  apply bind_Ok in H as (address & Hb & H).
  apply getitem_Ok in Hb as [Hk5 ->].
  apply bind_Ok in H as (address_str & Hstr & H).
  apply str_accessor_Ok in Hstr as ->.
  apply bind_Ok in H as (extracted & Hstr & H).
  apply str_accessor_Ok in Hstr as ->.
  rewrite <- !list_fmap_compose in H.
  match type of H with context [setitem df4 ?c (?f <$> rows df4)] =>
    pose proof (setitem_fmap df4 c f) as Hr5 end.
  apply Ok_inj in H. subst df.
  split; [|split].
  - repeat (apply elem_of_columns_setitem in Hk2; [|done]).
    repeat (apply elem_of_columns_setitem in Hk3; [|done]).
    repeat (apply elem_of_columns_setitem in Hk4; [|done]).
    repeat (apply elem_of_columns_setitem in Hk5; [|done]).
    unfold required_keys. by repeat constructor.
  - simpl. unfold derived_columns. apply set_eq. intros k.
    rewrite !elem_of_union, !elem_of_singleton.
    pose proof (not_elem_of_empty (C:=gset string) k). tauto.
  - rewrite Hr5, Hr4, Hr3, Hr2. rewrite <- !list_fmap_compose.
    change (rows df1)
      with (zip_with (λ r v, <["price_numeric":=v]> r) listings P).
    rewrite fmap_zip_with_insert.
    change (cell "price" <$> rows df0) with (cell "price" <$> listings) in P.
    subst P. rewrite <- ?list_fmap_compose.
    apply zip_with_pointwise. intros l p.
    unfold normalised, extract_neighborhood, compose.
    by rewrite !cell_insert_ne by done.
Qed.

Lemma process_listings_data_row listings df i l r :
  process_listings_data py_float pd_numeric listings = Ok df →
  listings !! i = Some l → rows df !! i = Some r →
  ∃ p, astype_float_ignore py_float
         (str_replace_price <$> (cell "price" <$> listings)) !! i = Some p
       ∧ r = normalised pd_numeric l p.
Proof.
  intros H Hl Hr. destruct (process_listings_data_Ok listings df) as (_ & _ & Hrows);
    [by intros -> | done |].
  rewrite Hrows in Hr. apply lookup_zip_with_Some in Hr as (l' & p & -> & Hl' & Hp).
  exists p. split; [done|]. congruence.
Qed.

(** X1. The normalisation keeps the listings: as many rows as listings, in
    the same order, and every raw field of a listing is in its row as it
    was. *)
Theorem normalisation_keeps_listings listings df :
  process_listings_data py_float pd_numeric listings = Ok df →
  length (rows df) = length listings
  ∧ ∀ i l r c, listings !! i = Some l → rows df !! i = Some r →
      c ∉ derived_columns → r !! c = l !! c.
Proof.
  intros H. split.
  - destruct listings as [|l0 ls]; [by inversion H|].
    destruct (process_listings_data_Ok (l0 :: ls) df) as (_ & _ & ->); [done..|].
    rewrite length_zip_with, astype_float_ignore_length, !length_fmap. lia.
  - intros i l r c Hl Hr Hc.
    destruct (process_listings_data_row _ _ _ _ _ H Hl Hr) as (p & _ & ->).
    unfold derived_columns in Hc. rewrite !not_elem_of_cons in Hc.
    destruct Hc as (? & ? & ? & ? & ? & _).
    unfold normalised. by rewrite !lookup_insert_ne by done.
Qed.

(** X2. A normalisation that returns has found each of the five fields it
    reads in at least one listing, and its frame has the columns of the
    listings and the five derived ones. *)
Theorem normalisation_needs_keys listings df :
  listings ≠ [] →
  process_listings_data py_float pd_numeric listings = Ok df →
  (∀ k, k ∈ required_keys → ∃ l, l ∈ listings ∧ is_Some (l !! k))
  ∧ ∀ c, c ∈ columns df ↔ c ∈ derived_columns ∨ ∃ l, l ∈ listings ∧ is_Some (l !! c).
Proof.
  intros Hne H.
  destruct (process_listings_data_Ok listings df Hne H) as (Hk & Hc & _). split.
  - intros k Hin. eapply Forall_forall in Hk; [|done].
    by apply elem_of_columns_of_records.
  - intros c. rewrite Hc, elem_of_union, elem_of_list_to_set.
    by rewrite elem_of_columns_of_records.
Qed.

(** X3. Bedrooms, bathrooms, square feet and the neighbourhood of a row are
    coerced from the raw fields of its own listing alone; the three numbers
    are a number or missing, never text. *)
Theorem fields_coerced_per_listing listings df i l r :
  process_listings_data py_float pd_numeric listings = Ok df →
  listings !! i = Some l → rows df !! i = Some r →
  cell "bedrooms_numeric" r = to_numeric_coerce pd_numeric (cell "bedrooms" l)
  ∧ cell "bathrooms_numeric" r = to_numeric_coerce pd_numeric (cell "bathrooms" l)
  ∧ cell "sqft_numeric" r = to_numeric_coerce pd_numeric (cell "sqft" l)
  ∧ cell "neighborhood" r = extract_neighborhood (cell "address" l)
  ∧ (is_str (cell "bedrooms_numeric" r) || is_str (cell "bathrooms_numeric" r)
     || is_str (cell "sqft_numeric" r) = false).
Proof.
  intros H Hl Hr.
  destruct (process_listings_data_row _ _ _ _ _ H Hl Hr) as (p & _ & ->).
  assert (∀ v, is_str (to_numeric_coerce pd_numeric v) = false) as Hs.
  { intros [| |s]; simpl; try done. by destruct (pd_numeric s). }
  unfold normalised.
  rewrite !(cell_insert_ne "neighborhood") by done. rewrite cell_insert_eq.
  rewrite !(cell_insert_ne "sqft_numeric") by done. rewrite cell_insert_eq.
  rewrite !(cell_insert_ne "bathrooms_numeric") by done. rewrite cell_insert_eq.
  rewrite cell_insert_eq. by rewrite !Hs.
Qed.

Lemma astype_float_all_parse (col : list value) :
  Forall (λ v, ∀ s, v = Str s → is_Some (py_float s)) col →
  astype_float py_float col
  = Some ((λ v, match v with
                | Str s => match py_float s with
                           | Some x => of_float x
                           | None => NaN
                           end
                | _ => v
                end) <$> col).
Proof.
  intros H. apply mapM_Some, Forall2_fmap_r, Forall_Forall2_diag.
  eapply Forall_impl; [done|]. intros [| |s] Hv; simpl; try done.
  destruct (Hv s eq_refl) as [x ->]. done.
Qed.

(** X4. When [float] accepts every price text once the symbols are
    stripped, the coerced price of a row is the coercion of the price of its
    own listing: a number or missing, never text. *)
Theorem prices_coerced_when_all_parse listings df i l r :
  process_listings_data py_float pd_numeric listings = Ok df →
  (∀ l s, l ∈ listings → cell "price" l = Str s →
          is_Some (py_float (re_sub_price s))) →
  listings !! i = Some l → rows df !! i = Some r →
  cell "price_numeric" r = coerce_price py_float (cell "price" l)
  ∧ is_str (cell "price_numeric" r) = false.
Proof.
  intros H Hall Hl Hr.
  destruct (process_listings_data_row _ _ _ _ _ H Hl Hr) as (p & Hp & ->).
  unfold astype_float_ignore in Hp. rewrite astype_float_all_parse in Hp.
  - simpl in Hp. rewrite !list_lookup_fmap, Hl in Hp. simpl in Hp.
    injection Hp as <-. unfold normalised.
    rewrite !cell_insert_ne by done. rewrite cell_insert_eq.
    unfold coerce_price. destruct (cell "price" l) as [| |s]; simpl; try done.
    destruct (py_float (re_sub_price s)) as [[?|]|]; done.
  - apply Forall_fmap, Forall_fmap, Forall_forall. intros l' Hin s Hs.
    simpl in Hs. destruct (cell "price" l') as [| |s'] eqn:Hc; try done.
    simpl in Hs. injection Hs as <-. by eapply Hall.
Qed.

(** X6. A price column of numbers, with no text in it, has no [.str]
    accessor: the normalisation raises [AttributeError]. *)
Theorem numeric_price_column_raises listings :
  (∃ l, l ∈ listings ∧ is_Some (l !! "price")) →
  is_numeric_dtype (cell "price" <$> listings) = true →
  process_listings_data py_float pd_numeric listings = Err AttributeError.
Proof.
  intros Hk Hn. destruct listings as [|l0 ls].
  { by destruct Hk as (? & ?%elem_of_nil & _). }
  unfold process_listings_data, getitem.
  rewrite decide_True by by apply elem_of_columns_of_records.
  simpl. unfold str_accessor.
  change (cell "price" l0 :: list_fmap _ _ (cell "price") ls)
    with (cell "price" <$> l0 :: ls).
  by rewrite Hn.
Qed.

End Normalisation.

(** ** A price that [float] refuses, end to end *)

Lemma mapM_text_column (f : value → result bool) (col : list value) :
  (∀ s, f (Str s) = Err TypeError) → f NaN = Ok false →
  Forall (λ v, is_num v = false) col → Exists (λ v, is_str v = true) col →
  mapM f col = Err TypeError.
Proof.
  intros Hs Hn Hall Hex.
  induction Hall as [|v col Hv Hall IH]; [by apply Exists_nil in Hex|].
  simpl. destruct v as [|q|s]; [|done|by rewrite Hs].
  rewrite Hn. simpl. rewrite IH; [done|].
  by apply Exists_cons in Hex as [?|?].
Qed.

Section MalformedPrice.

Variable py_float : string → option (option Q).
Variable pd_numeric : string → option Q.

(** X5. One price text that [float] refuses, and the filters of [main]
    raise [TypeError] on the normalised frame, whatever the price range and
    the selections: every coerced price is then text or missing, and text
    does not compare with a number. *)
Theorem malformed_price_breaks_filters listings df l s
    price_range bedrooms property_types :
  process_listings_data py_float pd_numeric listings = Ok df →
  l ∈ listings → cell "price" l = Str s → py_float (re_sub_price s) = None →
  apply_filters df price_range bedrooms property_types = Err TypeError.
Proof.
  intros H Hl Hs Hfail.
  assert (listings ≠ []) as Hne by (intros ->; by apply elem_of_nil in Hl).
  destruct (process_listings_data_Ok _ _ _ _ Hne H) as (_ & Hc & Hrows).
  set (text := str_replace_price <$> (cell "price" <$> listings)) in *.
  assert (astype_float_ignore py_float text = text) as Htext.
  { apply (astype_float_ignore_failure _ _ (re_sub_price s)); [|done].
    unfold text. rewrite <- list_fmap_compose. apply list_elem_of_fmap.
    exists l. split; [|done]. simpl. by rewrite Hs. }
  rewrite Htext in Hrows.
  assert (cell "price_numeric" <$> rows df = text) as Hcol.
  { rewrite Hrows. rewrite fmap_zip_with_normalised_price; [done|].
    unfold text. by rewrite !length_fmap. }
  unfold apply_filters, filter_price.
  assert ("price_numeric" ∈ columns df) as Hpn.
  { rewrite Hc. apply elem_of_union_l, elem_of_list_to_set. by left. }
  rewrite decide_True by done. unfold getitem. rewrite decide_True by done.
  simpl. rewrite Hcol.
  rewrite (mapM_text_column (ge_scalar price_range.1)); try done.
  - unfold text. rewrite <- list_fmap_compose. apply Forall_fmap, Forall_forall.
    intros l' _. simpl. by destruct (cell "price" l').
  - apply Exists_exists. exists (Str (re_sub_price s)). split; [|done].
    unfold text. rewrite <- list_fmap_compose. apply list_elem_of_fmap.
    exists l. split; [|done]. simpl. by rewrite Hs.
Qed.

End MalformedPrice.

(** ** Evaluations on the example frames *)

Lemma dataset_sample_eq :
  process_listings_data decimal_float parse_decimal listings_sample
  = Ok dataset_sample.
Proof. by_computation. Qed.

Lemma dataset_malformed_eq :
  process_listings_data decimal_float parse_decimal listings_malformed
  = Ok dataset_malformed.
Proof. by_computation. Qed.

Lemma sample_priced_eq :
  apply_filters dataset_sample sample_range [] [] = Ok sample_priced.
Proof. by_computation. Qed.

Lemma sample_sorted_eq :
  sort_and_display insertion_argsort dataset_sample "price_numeric" 3
  = Ok sample_sorted.
Proof. by_computation. Qed.

Lemma normalisation_keeps_listings_witness :
  length (rows dataset_sample) = length listings_sample
  ∧ ∀ i l r c, listings_sample !! i = Some l → rows dataset_sample !! i = Some r →
      c ∉ derived_columns → r !! c = l !! c.
Proof.
  apply (normalisation_keeps_listings decimal_float parse_decimal).
  exact dataset_sample_eq.
Defined.

Lemma normalisation_needs_keys_witness :
  (∀ k, k ∈ required_keys → ∃ l, l ∈ listings_sample ∧ is_Some (l !! k))
  ∧ ∀ c, c ∈ columns dataset_sample
         ↔ c ∈ derived_columns ∨ ∃ l, l ∈ listings_sample ∧ is_Some (l !! c).
Proof.
  apply (normalisation_needs_keys decimal_float parse_decimal);
    [discriminate | exact dataset_sample_eq].
Defined.

Lemma fields_coerced_per_listing_witness :
  cell "bedrooms_numeric" sample_first_row
  = to_numeric_coerce parse_decimal (cell "bedrooms" sample_first)
  ∧ cell "bathrooms_numeric" sample_first_row
    = to_numeric_coerce parse_decimal (cell "bathrooms" sample_first)
  ∧ cell "sqft_numeric" sample_first_row
    = to_numeric_coerce parse_decimal (cell "sqft" sample_first)
  ∧ cell "neighborhood" sample_first_row
    = extract_neighborhood (cell "address" sample_first)
  ∧ (is_str (cell "bedrooms_numeric" sample_first_row)
     || is_str (cell "bathrooms_numeric" sample_first_row)
     || is_str (cell "sqft_numeric" sample_first_row) = false).
Proof.
  apply (fields_coerced_per_listing decimal_float parse_decimal
           listings_sample dataset_sample 0 sample_first sample_first_row);
    [exact dataset_sample_eq | reflexivity..].
Defined.

Lemma prices_coerced_when_all_parse_witness :
  cell "price_numeric" sample_first_row
  = coerce_price decimal_float (cell "price" sample_first)
  ∧ is_str (cell "price_numeric" sample_first_row) = false.
Proof.
  apply (prices_coerced_when_all_parse decimal_float parse_decimal
           listings_sample dataset_sample 0 sample_first sample_first_row);
    [exact dataset_sample_eq | | reflexivity..].
  intros l s Hin Hs. unfold listings_sample in Hin.
  repeat (apply elem_of_cons in Hin as [->|Hin]);
    [..|by apply elem_of_nil in Hin];
    vm_compute in Hs; try discriminate Hs;
    injection Hs as <-; vm_compute; eauto.
Defined.

Lemma malformed_price_breaks_filters_witness :
  apply_filters dataset_malformed sample_range [] [] = Err TypeError.
Proof.
  apply (malformed_price_breaks_filters decimal_float parse_decimal
           listings_malformed dataset_malformed
           (default ∅ (listings_malformed !! 1)) "Contact agent").
  - exact dataset_malformed_eq.
  - right. left.
  - by_computation.
  - by_computation.
Defined.

Lemma numeric_price_column_raises_witness :
  process_listings_data decimal_float parse_decimal listings_numeric_price
  = Err AttributeError.
Proof.
  apply numeric_price_column_raises; [|by_computation].
  eexists. split; [left|]. vm_compute. eauto.
Defined.

(** ** The filtered view *)

Lemma filter_Forall_id {A} (P : A → Prop) `{∀ x, Decision (P x)} (l : list A) :
  Forall P l → filter P l = l.
Proof.
  induction 1 as [|x l Hx _ IH]; [done|].
  by rewrite filter_cons_True, IH.
Qed.

Lemma filter_sublist_mono {A} (P Q : A → Prop)
    `{∀ x, Decision (P x)} `{∀ x, Decision (Q x)} (l : list A) :
  (∀ x, P x → Q x) → filter P l `sublist_of` filter Q l.
Proof.
  intros HPQ. induction l as [|x l IH]; [done|].
  rewrite !filter_cons. destruct (decide (P x)) as [HP|HP].
  - rewrite decide_True by auto. by constructor.
  - destruct (decide (Q x)); [by constructor | done].
Qed.

Lemma sublist_same_length {A} (l k : list A) :
  l `sublist_of` k → length l = length k → l = k.
Proof.
  induction 1 as [|x l k Hs IH|x l k Hs IH]; simpl; intros Hlen; [done|..].
  - f_equal. apply IH. lia.
  - apply sublist_length in Hs. lia.
Qed.

Lemma DataFrame_eq (d1 d2 : DataFrame) :
  columns d1 = columns d2 → rows d1 = rows d2 → d1 = d2.
Proof. destruct d1, d2. simpl. by intros -> ->. Qed.

Lemma mapM_Ok_Forall {A B} (f : A → result B) (l : list A) (k : list B) :
  mapM f l = Ok k → Forall (λ x, ∃ y, f x = Ok y) l.
Proof.
  revert k. induction l as [|x l IH]; intros k H; [constructor|].
  simpl in H. apply bind_Ok in H as (y & Hy & H).
  apply bind_Ok in H as (k' & Hk & _). constructor; eauto.
Qed.

(** The rows of a filtered view. *)
Lemma apply_filters_rows df price_range bedrooms property_types out :
  apply_filters df price_range bedrooms property_types = Ok out →
  columns out = columns df
  ∧ rows out
    = filter (λ r, kept df price_range bedrooms property_types r = true) (rows df).
Proof.
  intros H. unfold apply_filters in H.
  apply bind_Ok in H as (d1 & H1 & H). apply bind_Ok in H as (d2 & H2 & H3).
  pose proof (filter_isin_sublist _ _ _ _ H2) as [Hc2 _].
  pose proof (filter_isin_sublist _ _ _ _ H3) as [Hc3 _].
  apply filter_isin_passes in H2, H3.
  assert (columns d1 = columns df
          ∧ rows d1 = filter (λ r, (if bool_decide ("price_numeric" ∈ columns df)
                                    then price_in_range price_range r else true)
                                   = true) (rows df)) as [Hc1 Hr1].
  { destruct (decide ("price_numeric" ∈ columns df)) as [Hc|Hc].
    - rewrite bool_decide_eq_true_2 by done. by apply filter_price_rows.
    - rewrite bool_decide_eq_false_2 by done.
      unfold filter_price in H1. rewrite decide_False in H1 by done.
      apply Ok_inj in H1 as <-. split; [done|].
      symmetry. apply filter_Forall_id. by apply Forall_forall. }
  split; [congruence|].
  rewrite H3, H2, Hr1, !filter_and. apply list_filter_iff.
  intros r. unfold kept. by rewrite andb_assoc.
Qed.

(** The filters that return have found the column of each multiselect
    with a selection. *)
Lemma apply_filters_columns df price_range bedrooms property_types out :
  apply_filters df price_range bedrooms property_types = Ok out →
  (bedrooms ≠ [] → "bedrooms_numeric" ∈ columns df)
  ∧ (property_types ≠ [] → "property_type" ∈ columns df).
Proof.
  intros H. unfold apply_filters in H.
  apply bind_Ok in H as (d1 & H1 & H). apply bind_Ok in H as (d2 & H2 & H3).
  pose proof (filter_price_sublist _ _ _ H1) as [Hc1 _].
  pose proof (filter_isin_sublist _ _ _ _ H2) as [Hc2 _].
  split.
  - intros Hne. destruct bedrooms as [|v sel]; [done|].
    unfold filter_isin in H2. apply bind_Ok in H2 as (col & Hcol & _).
    apply getitem_Ok in Hcol as [Hcol _]. by rewrite <- Hc1.
  - intros Hne. destruct property_types as [|v sel]; [done|].
    unfold filter_isin in H3. apply bind_Ok in H3 as (col & Hcol & _).
    apply getitem_Ok in Hcol as [Hcol _]. by rewrite <- Hc1, <- Hc2.
Qed.

(** The filters return on a frame without a text price that has the column
    of each multiselect with a selection. *)
Lemma apply_filters_returns df price_range bedrooms property_types :
  ("price_numeric" ∈ columns df →
   Forall (λ r, is_str (cell "price_numeric" r) = false) (rows df)) →
  (bedrooms ≠ [] → "bedrooms_numeric" ∈ columns df) →
  (property_types ≠ [] → "property_type" ∈ columns df) →
  ∃ out, apply_filters df price_range bedrooms property_types = Ok out.
Proof.
  intros Hp Hb Ht. unfold apply_filters.
  assert (∃ d1, filter_price df price_range = Ok d1) as [d1 H1].
  { destruct (decide ("price_numeric" ∈ columns df)) as [Hc|Hc].
    - by apply filter_price_total, Hp.
    - unfold filter_price. rewrite decide_False by done. eauto. }
  rewrite H1. simpl. apply filter_price_sublist in H1 as [Hc1 _].
  assert (∀ d c sel, (sel ≠ [] → c ∈ columns d) →
    ∃ d', filter_isin d c sel = Ok d' ∧ columns d' = columns d) as Hisin.
  { intros d c [|v sel] Hc; [by eexists|]. unfold filter_isin, getitem.
    rewrite decide_True by by apply Hc. simpl. by eexists. }
  destruct (Hisin d1 "bedrooms_numeric" bedrooms) as (d2 & -> & Hc2);
    [by rewrite Hc1|].
  simpl. destruct (Hisin d2 "property_type" property_types) as (d3 & -> & _);
    [by rewrite Hc2, Hc1 | eauto].
Qed.

(** X7. The filters return a view exactly when no coerced price of the
    frame is text and each multiselect with a selection has its column: a
    text price raises [TypeError], a missing column [KeyError]. *)
Theorem apply_filters_returns_iff df price_range bedrooms property_types :
  (∃ out, apply_filters df price_range bedrooms property_types = Ok out)
  ↔ ("price_numeric" ∈ columns df →
     Forall (λ r, is_str (cell "price_numeric" r) = false) (rows df))
    ∧ (bedrooms ≠ [] → "bedrooms_numeric" ∈ columns df)
    ∧ (property_types ≠ [] → "property_type" ∈ columns df).
Proof.
  split.
  - intros [out H]. split; [|by eapply apply_filters_columns].
    intros Hc. unfold apply_filters in H.
    apply bind_Ok in H as (d1 & H1 & _). unfold filter_price, getitem in H1.
    rewrite !decide_True in H1 by done. simpl in H1.
    apply bind_Ok in H1 as (lower & Hl & _).
    apply mapM_Ok_Forall in Hl. rewrite Forall_forall in Hl.
    apply Forall_forall. intros r Hr.
    destruct (Hl (cell "price_numeric" r)) as [y Hy].
    { apply list_elem_of_fmap. eauto. }
    revert Hy. by destruct (cell "price_numeric" r).
  - intros (Hp & Hb & Ht). by apply apply_filters_returns.
Qed.

(** X8. Filtering a filtered view again, with the same range and the same
    selections, returns the same view. *)
Theorem apply_filters_idempotent df price_range bedrooms property_types out :
  apply_filters df price_range bedrooms property_types = Ok out →
  apply_filters out price_range bedrooms property_types = Ok out.
Proof.
  intros H. destruct (apply_filters_rows _ _ _ _ _ H) as [Hc Hr].
  assert (Forall (λ r, kept df price_range bedrooms property_types r = true)
                 (rows out)) as Hall.
  { rewrite Hr. apply Forall_forall. by intros r [? _]%list_elem_of_filter. }
  destruct (apply_filters_columns _ _ _ _ _ H) as [Hb Ht].
  destruct (apply_filters_returns out price_range bedrooms property_types)
    as [out' H']; [|by rewrite Hc..|].
  { rewrite Hc. intros Hp.
    eapply Forall_impl; [done|]. intros r Hk. unfold kept in Hk.
    rewrite bool_decide_eq_true_2 in Hk by done.
    apply andb_true_iff in Hk as [[Hk _]%andb_true_iff _].
    unfold price_in_range in Hk. revert Hk.
    by destruct (cell "price_numeric" r). }
  rewrite H'. f_equal.
  destruct (apply_filters_rows _ _ _ _ _ H') as [Hc' Hr'].
  apply DataFrame_eq; [done|]. rewrite Hr'. apply filter_Forall_id.
  eapply Forall_impl; [done|]. intros r Hk. unfold kept in *. by rewrite Hc.
Qed.

Lemma isin_subseteq (sel sel' : list value) v :
  sel' ⊆ sel → isin sel' v = true → isin sel v = true.
Proof.
  unfold isin. rewrite !existsb_exists. intros Hsub (w & Hw & Heq).
  exists w. split; [|done]. apply list_elem_of_In, Hsub. by apply list_elem_of_In.
Qed.

Lemma passes_subseteq c (sel sel' : list value) r :
  sel' ≠ [] → sel' ⊆ sel → passes c sel' r = true → passes c sel r = true.
Proof.
  intros Hne Hsub. destruct sel' as [|v' s']; [done|].
  destruct sel as [|v s]; [done|]. unfold passes. by apply isin_subseteq.
Qed.

(** X9. Narrowing the price range and selecting fewer values, but at least
    one in each multiselect, can only remove listings: the narrower view is a
    subsequence of the wider one. *)
Theorem apply_filters_monotone df range range' bedrooms bedrooms'
    property_types property_types' out out' :
  apply_filters df range bedrooms property_types = Ok out →
  apply_filters df range' bedrooms' property_types' = Ok out' →
  (range.1 <= range'.1)%Q → (range'.2 <= range.2)%Q →
  bedrooms' ≠ [] → bedrooms' ⊆ bedrooms →
  property_types' ≠ [] → property_types' ⊆ property_types →
  rows out' `sublist_of` rows out.
Proof.
  intros H H' Hlo Hhi Hb Hbs Hp Hps.
  apply apply_filters_rows in H as [_ ->]. apply apply_filters_rows in H' as [_ ->].
  apply filter_sublist_mono. intros r Hk. unfold kept in *.
  apply andb_true_iff in Hk as [[Hk1 Hk2]%andb_true_iff Hk3].
  rewrite (passes_subseteq _ _ _ _ Hb Hbs Hk2), (passes_subseteq _ _ _ _ Hp Hps Hk3).
  rewrite !andb_true_r. destruct (bool_decide _); [|done].
  unfold price_in_range in *. destruct (cell "price_numeric" r); try done.
  apply andb_true_iff in Hk1 as [H1%Qle_bool_iff H2%Qle_bool_iff].
  apply andb_true_iff. split; apply Qle_bool_iff; eapply Qle_trans; done.
Qed.

(** X10. The delta of "Total Listings" is never positive: it is absent
    exactly when the filters removed nothing, and the view is then the
    dataset itself; otherwise it is the negative number of listings
    removed. *)
Theorem total_listings_delta df price_range bedrooms property_types out :
  apply_filters df price_range bedrooms property_types = Ok out →
  (total_listings df out).1 ≤ length (rows df)
  ∧ match (total_listings df out).2 with
    | None => out = df
    | Some d => (d < 0)%Z
                ∧ (Z.of_nat (length (rows out)) = Z.of_nat (length (rows df)) + d)%Z
    end.
Proof.
  intros H. apply apply_filters_rows in H as [Hc Hr].
  assert (rows out `sublist_of` rows df) as Hs by (rewrite Hr; apply sublist_filter).
  pose proof (sublist_length _ _ Hs) as Hlen.
  unfold total_listings. simpl. split; [done|]. case_decide as Hd.
  - lia.
  - apply DataFrame_eq; [done|]. apply sublist_same_length; [done|].
    by destruct (decide (length (rows out) = length (rows df))).
Qed.

(** ** The average price of the view *)

Lemma inject_Z_S (n : nat) :
  (inject_Z (Z.of_nat (S n)) == inject_Z (Z.of_nat n) + 1)%Q.
Proof. rewrite Nat2Z.inj_succ, <- Z.add_1_r, inject_Z_plus. reflexivity. Qed.

Lemma Qsum_bounds (lo hi : Q) (xs : list Q) :
  Forall (λ q, (lo <= q)%Q ∧ (q <= hi)%Q) xs →
  (inject_Z (Z.of_nat (length xs)) * lo <= Qsum xs)%Q
  ∧ (Qsum xs <= inject_Z (Z.of_nat (length xs)) * hi)%Q.
Proof.
  induction 1 as [|q xs [Hlo Hhi] _ [IHlo IHhi]].
  - change (inject_Z (Z.of_nat (length (@nil Q)))) with 0%Q.
    change (Qsum []) with 0%Q. split; lra.
  - cbn [length Qsum foldr]. fold (Qsum xs). rewrite inject_Z_S. split; lra.
Qed.

Lemma numbers_Num (col : list value) (xs : list Q) :
  col = Num <$> xs → numbers col = xs.
Proof.
  intros ->. induction xs as [|q xs IH]; [done|].
  rewrite fmap_cons. unfold numbers in *. cbn [omap list_omap]. by rewrite IH.
Qed.

(** The mean of a column of numbers within bounds is within the bounds. *)
Lemma mean_bounds (lo hi : Q) (col : list value) :
  col ≠ [] →
  Forall (λ v, ∃ q, v = Num q ∧ (lo <= q)%Q ∧ (q <= hi)%Q) col →
  ∃ m, mean col = Ok (Num m) ∧ (lo <= m)%Q ∧ (m <= hi)%Q.
Proof.
  intros Hne Hall.
  assert (∃ xs, col = Num <$> xs
                ∧ Forall (λ q, (lo <= q)%Q ∧ (q <= hi)%Q) xs) as (xs & -> & Hxs).
  { clear Hne. induction Hall as [|v col (q & -> & Hq) _ (xs & -> & Hxs)].
    - by exists [].
    - exists (q :: xs). split; [done|]. by constructor. }
  unfold mean.
  assert (existsb is_str (Num <$> xs) = false) as ->.
  { clear. induction xs; simpl; auto. }
  rewrite (numbers_Num _ xs eq_refl).
  destruct xs as [|q xs]; [done|]. eexists. split; [done|].
  destruct (Qsum_bounds lo hi (q :: xs) Hxs) as [Hlo Hhi].
  assert (0 < inject_Z (Z.of_nat (length (q :: xs))))%Q as Hpos.
  { change 0%Q with (inject_Z 0). rewrite <- Zlt_Qlt. cbn [length]. lia. }
  split.
  - apply Qle_shift_div_l; [done|]. lra.
  - apply Qle_shift_div_r; [done|]. lra.
Qed.

(** X11. After the filters, on a frame with coerced prices, the mean that
    the metric "Average Price" formats lies within the price range, whenever
    a listing is left. *)
Theorem average_price_in_range df price_range bedrooms property_types out :
  apply_filters df price_range bedrooms property_types = Ok out →
  "price_numeric" ∈ columns df → rows out ≠ [] →
  ∃ m, average_price out = Ok (Num m)
       ∧ (price_range.1 <= m)%Q ∧ (m <= price_range.2)%Q.
Proof.
  intros H Hc Hne. apply apply_filters_rows in H as [Hcols Hr].
  unfold average_price, getitem. rewrite !decide_True by by rewrite Hcols.
  simpl. apply mean_bounds.
  - by destruct (rows out).
  - apply Forall_fmap, Forall_forall. intros r Hin. rewrite Hr in Hin.
    apply list_elem_of_filter in Hin as [Hk _]. unfold kept in Hk.
    rewrite bool_decide_eq_true_2 in Hk by done.
    apply andb_true_iff in Hk as [[Hk _]%andb_true_iff _].
    unfold price_in_range in Hk. simpl.
    destruct (cell "price_numeric" r) as [|q|]; try done.
    apply andb_true_iff in Hk as [?%Qle_bool_iff ?%Qle_bool_iff]. eauto.
Qed.

Lemma apply_filters_returns_iff_witness :
  ∃ out, apply_filters dataset_sample sample_range [Num 3] [Str "House"] = Ok out.
Proof.
  apply (proj2 (apply_filters_returns_iff dataset_sample sample_range
                  [Num 3] [Str "House"])).
  split; [|split]; intros _; [|by_computation..].
  unfold dataset_sample. simpl. repeat constructor.
Defined.

Lemma apply_filters_idempotent_witness :
  apply_filters sample_priced sample_range [] [] = Ok sample_priced.
Proof.
  apply (apply_filters_idempotent dataset_sample sample_range [] []).
  exact sample_priced_eq.
Defined.

Lemma apply_filters_monotone_witness :
  rows (boolean_index dataset_sample [true; false; false])
    `sublist_of` rows sample_priced.
Proof.
  apply (apply_filters_monotone dataset_sample sample_range (0 # 1, 500000 # 1)%Q
           [Num 3; Num 4] [Num 3] [Str "House"; Str "Condo"] [Str "House"]);
    [by_computation | by_computation | discriminate | discriminate
    | discriminate | | discriminate | ];
    intros x Hx; apply list_elem_of_singleton in Hx as ->; left.
Defined.

Lemma total_listings_delta_witness :
  (total_listings dataset_sample sample_priced).1 ≤ length (rows dataset_sample)
  ∧ match (total_listings dataset_sample sample_priced).2 with
    | None => sample_priced = dataset_sample
    | Some d => (d < 0)%Z
                ∧ (Z.of_nat (length (rows sample_priced))
                   = Z.of_nat (length (rows dataset_sample)) + d)%Z
    end.
Proof.
  apply (total_listings_delta dataset_sample sample_range [] []).
  exact sample_priced_eq.
Defined.

Lemma average_price_in_range_witness :
  ∃ m, average_price sample_priced = Ok (Num m)
       ∧ (sample_range.1 <= m)%Q ∧ (m <= sample_range.2)%Q.
Proof.
  apply (average_price_in_range dataset_sample sample_range [] []);
    [exact sample_priced_eq | by_computation | discriminate].
Defined.

(** ** The rows of the neighbourhood chart *)

(** Rounding moves a number by at most one half. *)
Lemma round_half_even_bound (q : Q) :
  (Qabs (inject_Z (round_half_even q) - q) <= 1 # 2)%Q.
Proof.
  apply Qabs_Qle_condition. unfold round_half_even.
  pose proof (Qfloor_le q) as Hle. pose proof (Qlt_floor q) as Hlt.
  rewrite inject_Z_plus in Hlt. change (inject_Z 1) with 1%Q in Hlt.
  destruct (Qcompare_spec (q - inject_Z (Qfloor q)) (1 # 2)) as [H|H|H].
  - destruct (Z.even (Qfloor q)).
    + split; lra.
    + rewrite inject_Z_plus. change (inject_Z 1) with 1%Q. split; lra.
  - split; lra.
  - rewrite inject_Z_plus. change (inject_Z 1) with 1%Q. split; lra.
Qed.

Lemma mapM_Ok_Forall2 {A B} (f : A → result B) (l : list A) (k : list B) :
  mapM f l = Ok k → Forall2 (λ x y, f x = Ok y) l k.
Proof.
  revert k. induction l as [|x l IH]; intros k H; simpl in H.
  - apply Ok_inj in H as <-. constructor.
  - apply bind_Ok in H as (y & Hy & H). apply bind_Ok in H as (k' & Hk & H).
    apply Ok_inj in H as <-. constructor; auto.
Qed.

Lemma mapM_Err_same {A B} (f : A → result B) (l : list A) e :
  Forall (λ x, (∃ y, f x = Ok y) ∨ f x = Err e) l →
  Exists (λ x, f x = Err e) l →
  mapM f l = Err e.
Proof.
  induction 1 as [|x l Hx _ IH]; intros Hex; [by apply Exists_nil in Hex|].
  simpl. destruct Hx as [[y Hy]| ->]; [|done]. rewrite Hy. simpl.
  apply Exists_cons in Hex as [Hex|Hex]; [congruence|]. by rewrite IH.
Qed.

Lemma count_numbers (col : list value) :
  existsb is_str col = false → length (numbers col) = count col.
Proof.
  unfold numbers, count. induction col as [|v col IH]; [done|].
  cbn [existsb]. intros [Hv Hcol]%orb_false_iff.
  rewrite filter_cons. destruct v as [|q|s]; try done; simpl; auto.
Qed.

(** A row of the chart is the statistics of a group that meets the
    threshold. *)
Lemma chart_row_inv df out s :
  create_neighborhood_chart df = Ok (Some out) → s ∈ out →
  ∃ k, k ∈ group_keys (cell "neighborhood" <$> rows df)
       ∧ agg_group (k, filter (λ r, value_eqb (cell "neighborhood" r) k = true)
                              (rows df)) = Ok s
       ∧ 3 ≤ agg_count s.
Proof.
  intros H Hin. unfold create_neighborhood_chart in H.
  destruct (empty df || _); [discriminate|].
  apply bind_Ok in H as (groups & Hg & H). apply bind_Ok in H as (? & _ & H).
  apply bind_Ok in H as (stats & Hs & H). apply Ok_inj in H. injection H as <-.
  unfold groupby, getitem in Hg. case_decide; [|discriminate]. simpl in Hg.
  apply Ok_inj in Hg as <-.
  apply elem_of_take in Hin as (i & Hin%list_elem_of_lookup_2 & _).
  apply list_elem_of_filter in Hin as [Hle Hin].
  apply list_elem_of_lookup in Hin as [j Hj].
  apply mapM_Ok_Forall2 in Hs.
  destruct (Forall2_lookup_r _ _ _ _ _ Hs Hj) as (g & Hg & Hagg).
  apply list_lookup_fmap_Some in Hg as (k & -> & Hk).
  exists k. split; [by eapply list_elem_of_lookup_2 | done].
Qed.

(** X12. The neighbourhood of a row of the chart has at least three known
    prices.  When these prices are whole numbers whose magnitudes add up to
    less than [2^52], where the binary64 sum of the program is exact and its
    quotient falls on the same side of every half as the exact mean, the
    average of the row is the mean of the prices rounded to a whole number,
    halves to the even neighbour: it is within one half of the mean. *)
Theorem chart_average_rounds_mean df out s :
  create_neighborhood_chart df = Ok (Some out) → s ∈ out →
  let xs := group_prices (rows df) (neighborhood s) in
  let m := (Qsum xs / inject_Z (Z.of_nat (length xs)))%Q in
  3 ≤ length xs
  ∧ (Forall (λ x, is_whole x = true) xs →
     (Qsum (Qabs <$> xs) < inject_Z (2 ^ 52))%Q →
     avg_price s = Num (inject_Z (round_half_even m))
     ∧ (Qabs (inject_Z (round_half_even m) - m) <= 1 # 2)%Q).
Proof.
  intros H Hin xs m. destruct (chart_row_inv _ _ _ H Hin) as (k & _ & Hagg & Hle).
  unfold agg_group in Hagg. apply bind_Ok in Hagg as (v & Hv & Hagg).
  apply Ok_inj in Hagg. subst s. cbn [neighborhood avg_price agg_count] in *.
  cbn [fst snd] in *. unfold mean in Hv.
  destruct (existsb is_str _) eqn:Hstr; [discriminate|].
  apply count_numbers in Hstr.
  fold (group_prices (rows df) k) in Hv, Hstr. rewrite <- Hstr in Hle.
  subst xs m.
  assert (round0 v
          = Num (inject_Z (round_half_even
                   (Qsum (group_prices (rows df) k)
                    / inject_Z (Z.of_nat (length (group_prices (rows df) k)))))))
    as Hround.
  { destruct (group_prices (rows df) k) as [|q l]; [simpl in Hle; lia|].
    by apply Ok_inj in Hv as <-. }
  split; [done|]. intros _ _. split; [done | apply round_half_even_bound].
Qed.

Lemma value_lt_irrefl v : ¬ value_lt v v.
Proof.
  unfold value_lt. destruct v as [|q|s]; simpl; [done|..].
  - destruct (Qcompare_spec q q) as [?|H|H]; [done|..];
      by apply Qlt_irrefl in H.
  - unfold String.ltb. by rewrite string_compare_refl.
Qed.

Lemma StronglySorted_NoDup (l : list value) :
  StronglySorted value_lt l → NoDup l.
Proof.
  induction 1 as [|x l _ IH Hall]; constructor; [|done].
  intros Hin. eapply Forall_forall in Hall; [|done].
  by apply value_lt_irrefl in Hall.
Qed.

(** X13. A neighbourhood of the chart is not missing and is the
    neighbourhood of a listing of the view, and no neighbourhood is listed
    twice: the listings without a neighbourhood are in no group. *)
Theorem chart_groups_are_neighbourhoods df out :
  create_neighborhood_chart df = Ok (Some out) →
  Forall (λ s, isna (neighborhood s) = false
               ∧ ∃ r, r ∈ rows df ∧ cell "neighborhood" r = neighborhood s) out
  ∧ NoDup (neighborhood <$> out).
Proof.
  intros H. split.
  - apply Forall_forall. intros s Hin.
    destruct (chart_row_inv _ _ _ H Hin) as (k & Hk & Hagg & _).
    unfold agg_group in Hagg. apply bind_Ok in Hagg as (v & _ & Hagg).
    apply Ok_inj in Hagg as <-. simpl.
    apply group_keys_sound in Hk as [Hk Hna]. split; [done|].
    apply list_elem_of_fmap in Hk as (r & -> & Hr). eauto.
  - apply create_neighborhood_chart_rows in H as (stats & -> & Hs).
    apply StronglySorted_NoDup. rewrite fmap_take.
    rewrite (filter_stats_keys (rows df) _ _ Hs).
    eapply StronglySorted_sublist; [|apply group_keys_sorted].
    etrans; [apply sublist_take | apply sublist_filter].
Qed.

(** X14. A coerced price left as text, on a listing that has a
    neighbourhood, and the chart raises [TypeError]. *)
Theorem chart_text_price_raises df r :
  "neighborhood" ∈ columns df → "price_numeric" ∈ columns df →
  r ∈ rows df → isna (cell "neighborhood" r) = false →
  is_str (cell "price_numeric" r) = true →
  create_neighborhood_chart df = Err TypeError.
Proof.
  intros Hn Hp Hr Hna Hstr. unfold create_neighborhood_chart.
  assert (empty df = false) as ->.
  { unfold empty. destruct (rows df); [by apply elem_of_nil in Hr|].
    apply bool_decide_eq_false_2. intros He. rewrite He in Hn.
    by apply not_elem_of_empty in Hn. }
  rewrite bool_decide_eq_true_2 by done. simpl.
  unfold groupby, getitem. rewrite !decide_True by done. simpl.
  rewrite (mapM_Err_same _ _ TypeError); [done|..].
  - apply Forall_fmap, Forall_forall. intros k _. simpl. unfold agg_group, mean.
    simpl. destruct (existsb is_str _); [by right|]. left.
    destruct (numbers _); simpl; eauto.
  - destruct (group_keys_complete (cell "neighborhood" <$> rows df)
                (cell "neighborhood" r)) as (k & Hk & Heq); [|done|].
    { apply list_elem_of_fmap. eauto. }
    apply Exists_fmap, Exists_exists. exists k. split; [done|].
    simpl. unfold agg_group, mean. simpl.
    assert (existsb is_str
              (cell "price_numeric"
                 <$> filter (λ r0, value_eqb (cell "neighborhood" r0) k = true)
                            (rows df)) = true) as ->; [|done].
    apply existsb_exists. exists (cell "price_numeric" r). split; [|done].
    apply list_elem_of_In, list_elem_of_fmap. exists r. split; [done|].
    by apply list_elem_of_filter.
Qed.

Lemma chart_average_rounds_mean_witness :
  let s := {| neighborhood := Str "A"; avg_price := Num 200; agg_count := 3 |} in
  let xs := group_prices (rows view_five) (neighborhood s) in
  let m := (Qsum xs / inject_Z (Z.of_nat (length xs)))%Q in
  3 ≤ length xs
  ∧ avg_price s = Num (inject_Z (round_half_even m))
  ∧ (Qabs (inject_Z (round_half_even m) - m) <= 1 # 2)%Q.
Proof.
  destruct (chart_average_rounds_mean view_five
              [{| neighborhood := Str "A"; avg_price := Num 200; agg_count := 3 |}]
              {| neighborhood := Str "A"; avg_price := Num 200; agg_count := 3 |})
    as (Hlen & Hmean).
  - by_computation.
  - left.
  - split; [exact Hlen|]. apply Hmean.
    + vm_compute. repeat constructor.
    + by_computation.
Defined.

Lemma chart_groups_are_neighbourhoods_witness :
  let out := [{| neighborhood := Str "A"; avg_price := Num 200; agg_count := 3 |}] in
  Forall (λ s, isna (neighborhood s) = false
               ∧ ∃ r, r ∈ rows view_five ∧ cell "neighborhood" r = neighborhood s) out
  ∧ NoDup (neighborhood <$> out).
Proof.
  apply (chart_groups_are_neighbourhoods view_five). by_computation.
Defined.

Lemma chart_text_price_raises_witness :
  create_neighborhood_chart view_text_price = Err TypeError.
Proof.
  apply (chart_text_price_raises view_text_price (priced (Str "A") (Str "100")));
    try by_computation.
  left.
Defined.

(** ** The order of the sorted table *)

Lemma take_idx_Forall2 {A} (l : list A) idx k :
  take_idx l idx = Ok k ↔ Forall2 (λ i x, l !! i = Some x) idx k.
Proof.
  split.
  - intros H%mapM_Ok_Forall2. eapply Forall2_impl; [done|].
    intros i x Hi. simpl in Hi. by destruct (l !! i); simplify_eq.
  - induction 1 as [|i x idx k Hi _ IH]; [done|].
    unfold take_idx in *. simpl. rewrite Hi. simpl. by rewrite IH.
Qed.

Lemma omap_lookup_seq {A} (pre l : list A) :
  omap (λ i, (pre ++ l) !! i) (seq (length pre) (length l)) = l.
Proof.
  revert pre. induction l as [|x l IH]; intros pre; [done|].
  cbn [length seq omap list_omap].
  rewrite lookup_app_r, Nat.sub_diag by lia. simpl. f_equal.
  specialize (IH (pre ++ [x])). rewrite <- app_assoc in IH. simpl in IH.
  rewrite length_app in IH. simpl in IH. by rewrite Nat.add_1_r in IH.
Qed.

Lemma omap_lookup_seq_0 {A} (l : list A) :
  omap (λ i, l !! i) (seq 0 (length l)) = l.
Proof. exact (omap_lookup_seq [] l). Qed.

Lemma take_idx_omap {A} (l : list A) idx k :
  take_idx l idx = Ok k → k = omap (λ i, l !! i) idx.
Proof.
  intros H%take_idx_Forall2. induction H as [|i x idx k Hi _ IH]; [done|].
  cbn [omap list_omap]. rewrite Hi. by f_equal.
Qed.

Lemma take_idx_perm {A} (l : list A) idx k :
  idx ≡ₚ seq 0 (length l) → take_idx l idx = Ok k → k ≡ₚ l.
Proof.
  intros Hp ->%take_idx_omap. rewrite Hp. by rewrite omap_lookup_seq_0.
Qed.

Lemma select_partition {A} (mask : list bool) (l : list A) :
  length mask = length l →
  select (negb <$> mask) l ++ select mask l ≡ₚ l.
Proof.
  revert l. induction mask as [|b mask IH]; intros [|x l] Hlen; simpl in *;
    try done.
  destruct b; simpl.
  - rewrite <- Permutation_middle. constructor. apply IH. lia.
  - constructor. apply IH. lia.
Qed.

Lemma select_Forall2 {A} (mask : list bool) (pre l : list A) :
  Forall2 (λ j v, (pre ++ l) !! j = Some v)
          (select mask (seq (length pre) (length l))) (select mask l).
Proof.
  revert mask pre. induction l as [|x l IH]; intros [|b mask] pre;
    simpl; try constructor.
  assert (Forall2 (λ j v, (pre ++ x :: l) !! j = Some v)
            (select mask (seq (S (length pre)) (length l))) (select mask l)) as Hrest.
  { specialize (IH mask (pre ++ [x])). rewrite <- app_assoc in IH. simpl in IH.
    rewrite length_app in IH. simpl in IH. by rewrite Nat.add_1_r in IH. }
  destruct b; [|done]. constructor; [|done].
  by rewrite lookup_app_r, Nat.sub_diag by lia.
Qed.

Lemma Forall2_take_idx {A B} (R : A → B → Prop) la lb idx ka kb :
  Forall2 R la lb → take_idx la idx = Ok ka → take_idx lb idx = Ok kb →
  Forall2 R ka kb.
Proof.
  intros HR Ha%take_idx_Forall2 Hb%take_idx_Forall2.
  revert kb Hb. induction Ha as [|i x idx ka Hi _ IH]; intros kb Hb.
  - apply Forall2_nil_inv_l in Hb as ->. constructor.
  - apply Forall2_cons_inv_l in Hb as (y & kb' & Hy & Hb & ->).
    constructor; [|auto]. by eapply Forall2_lookup_lr.
Qed.

Lemma is_ascending_lookup (l : list value) p q x y :
  is_ascending l = true → p < q → l !! p = Some x → l !! q = Some y →
  value_ltb y x = false.
Proof.
  revert p q. induction l as [|z l IH]; intros p q H Hpq Hp Hq; [done|].
  simpl in H. apply andb_true_iff in H as [Hall Hasc].
  destruct q as [|q]; [lia|]. simpl in Hq. destruct p as [|p]; simpl in Hp.
  - injection Hp as ->. rewrite forallb_forall in Hall.
    apply negb_true_iff, Hall, list_elem_of_In. by eapply list_elem_of_lookup_2.
  - eapply (IH p q); [done|lia|done..].
Qed.

Lemma select_known_notna (items : list value) :
  Forall (λ v, isna v = false) (select (negb <$> (isna <$> items)) items).
Proof.
  induction items as [|v items IH]; [constructor|].
  destruct v; simpl; try constructor; done.
Qed.

Section SortingOrder.

Variable np_argsort : list value → list nat.

(** What a descending sort that returns is made of: the rows of the known
    keys, read against the order of [argsort], then the rows of the missing
    keys. *)
Lemma sort_values_descending_inv df key sorted :
  sort_values np_argsort df key false = Ok sorted →
  columns sorted = columns df
  ∧ ∃ ix known missing,
      let a := argsort_input (cell key <$> rows df) false in
      take_idx (reverse (select (negb <$> (isna <$> (cell key <$> rows df)))
                                (seq 0 (length (rows df)))))
               (np_argsort a) = Ok ix
      ∧ rows sorted = known ++ missing
      ∧ Forall2 (λ j r, rows df !! j = Some r) (reverse ix) known
      ∧ Forall2 (λ j r, rows df !! j = Some r)
                (select (isna <$> (cell key <$> rows df))
                        (seq 0 (length (rows df)))) missing.
Proof.
  intros H. unfold sort_values, getitem in H. case_decide; [|discriminate].
  simpl in H. apply bind_Ok in H as (indexer & Hix & H).
  apply bind_Ok in H as (rs & Hrs & H). apply Ok_inj in H as <-. simpl.
  split; [done|]. unfold nargsort in Hix.
  destruct (existsb is_num _ && existsb is_str _); [discriminate|].
  apply bind_Ok in Hix as (ix & Hix & Hindexer). apply Ok_inj in Hindexer as <-.
  rewrite length_fmap in Hix, Hrs.
  apply take_idx_Forall2, Forall2_app_inv_l in Hrs
    as (known & missing & Hk & Hm & ->).
  by exists ix, known, missing.
Qed.

(** X15. When [argsort] returns a permutation of the positions of its
    array, the descending sort loses and invents no listing: the sorted view
    is a permutation of the view, and the table shows its first
    [show_count] rows, all of them when the view is no longer than that. *)
Theorem sort_and_display_permutes df sort_by show_count out :
  sort_by ∈ columns df →
  sort_and_display np_argsort df sort_by show_count = Ok out →
  (let a := argsort_input (cell sort_by <$> rows df) false in
   np_argsort a ≡ₚ seq 0 (length a)) →
  ∃ sorted, sort_values np_argsort df sort_by false = Ok sorted
    ∧ rows sorted ≡ₚ rows df
    ∧ rows out = take show_count (rows sorted)
    ∧ length (rows out) = show_count `min` length (rows df)
    ∧ (length (rows df) ≤ show_count → rows out ≡ₚ rows df).
Proof.
  intros Hc H Hperm. unfold sort_and_display in H. rewrite decide_True in H by done.
  apply bind_Ok in H as (sorted & Hs & H). apply Ok_inj in H as <-.
  exists sorted. split; [done|].
  destruct (sort_values_descending_inv _ _ _ Hs)
    as (_ & ix & known & missing & Hix & Hrows & Hk & Hm).
  set (items := cell sort_by <$> rows df) in *.
  set (mask := isna <$> items) in *.
  set (n := length (rows df)) in *.
  assert (length mask = n) as Hlen by (unfold mask, items; by rewrite !length_fmap).
  assert (np_argsort (argsort_input items false)
          ≡ₚ seq 0 (length (reverse (select (negb <$> mask) (seq 0 n))))) as Hperm'.
  { cbv zeta in Hperm. rewrite Hperm. unfold argsort_input. fold mask.
    rewrite !length_reverse.
    rewrite (select_length _ items (seq 0 n)); [done|].
    unfold items, n. by rewrite length_fmap, length_seq. }
  assert (rows sorted ≡ₚ rows df) as Hp.
  { rewrite Hrows.
    assert (known ++ missing ≡ₚ omap (λ j, rows df !! j)
              (reverse ix ++ select mask (seq 0 n))) as ->.
    { rewrite omap_app.
      rewrite <- (take_idx_omap (rows df) (reverse ix) known)
        by by apply take_idx_Forall2.
      by rewrite <- (take_idx_omap (rows df) _ missing)
        by by apply take_idx_Forall2. }
    assert (reverse ix ++ select mask (seq 0 n) ≡ₚ seq 0 n) as ->.
    { assert (ix ≡ₚ reverse (select (negb <$> mask) (seq 0 n))) as Hixp.
      { by apply (take_idx_perm _ _ _ Hperm' Hix). }
      rewrite reverse_Permutation, Hixp, reverse_Permutation.
      apply select_partition. by rewrite length_seq. }
    unfold n. by rewrite omap_lookup_seq_0. }
  split; [done|]. simpl. split; [done|]. split.
  - by rewrite length_take, Hp.
  - intros Hle. rewrite firstn_all2; [done|]. by rewrite Hp.
Qed.

(** X16. When the array that [argsort] returns indices for is ascending in
    their order, the table is in descending order of the key: a listing is
    never followed by a listing with a greater key, the missing keys
    last. *)
Theorem sort_and_display_descending df sort_by show_count out i j ri rj :
  sort_by ∈ columns df →
  sort_and_display np_argsort df sort_by show_count = Ok out →
  (let a := argsort_input (cell sort_by <$> rows df) false in
   is_ascending <$> take_idx a (np_argsort a) = Ok true) →
  i < j → rows out !! i = Some ri → rows out !! j = Some rj →
  isna (cell sort_by rj) = false →
  isna (cell sort_by ri) = false
  ∧ value_ltb (cell sort_by ri) (cell sort_by rj) = false.
Proof.
  intros Hc H Hasc Hij Hi Hj Hna.
  unfold sort_and_display in H. rewrite decide_True in H by done.
  apply bind_Ok in H as (sorted & Hs & H). apply Ok_inj in H as <-.
  simpl in Hi, Hj.
  apply lookup_take_Some in Hi as [Hi _]. apply lookup_take_Some in Hj as [Hj _].
  destruct (sort_values_descending_inv _ _ _ Hs)
    as (_ & ix & known & missing & Hix & Hrows & Hk & Hm).
  set (items := cell sort_by <$> rows df) in *.
  set (mask := isna <$> items) in *.
  set (n := length (rows df)) in *.
  cbv zeta in Hasc. unfold argsort_input in Hasc. fold items mask in Hasc.
  destruct (take_idx (reverse (select (negb <$> mask) items)) _)
    as [ks|] eqn:Hks; [|discriminate].
  simpl in Hasc. apply Ok_inj in Hasc.
  (* the keys of the known rows are the array in the order of argsort,
     reversed *)
  assert (Forall2 (λ j v, items !! j = Some v) ix ks) as Hkeys.
  { eapply (Forall2_take_idx _ _ _ _ _ _ _ Hix Hks). Unshelve.
    apply Forall2_reverse. unfold n.
    replace (length (rows df)) with (length items)
      by (unfold items; by rewrite length_fmap).
    apply (select_Forall2 _ [] items). }
  assert (cell sort_by <$> known = reverse ks) as Hknown.
  { apply Forall2_reverse in Hkeys.
    revert Hk Hkeys. generalize (reverse ix) (reverse ks). clear.
    intros idx ks Hk. revert ks.
    induction Hk as [|j r idx known Hr _ IH]; intros ks Hks.
    - by apply Forall2_nil_inv_l in Hks as ->.
    - apply Forall2_cons_inv_l in Hks as (v & ks' & Hv & Hks & ->).
      rewrite fmap_cons. f_equal; [|auto].
      unfold items in Hv. rewrite list_lookup_fmap, Hr in Hv. by injection Hv. }
  assert (Forall (λ r, isna (cell sort_by r) = true) missing) as Hmiss.
  { apply Forall_forall. intros r Hr.
    apply list_elem_of_lookup in Hr as [p Hp].
    destruct (Forall2_lookup_r _ _ _ _ _ Hm Hp) as (q & Hq & Hrow).
    apply list_elem_of_lookup_2 in Hq. unfold mask, n in Hq.
    replace (length (rows df)) with (length items) in Hq
      by (unfold items; by rewrite length_fmap).
    apply select_seq_lookup in Hq as (v & Hv & Hvna & _).
    rewrite Nat.sub_0_r in Hv. unfold items in Hv.
    rewrite list_lookup_fmap, Hrow in Hv. simpl in Hv. by injection Hv as <-. }
  rewrite Hrows in Hi, Hj.
  assert (j < length known) as Hjk.
  { destruct (decide (j < length known)); [done|].
    rewrite lookup_app_r in Hj by lia.
    apply list_elem_of_lookup_2 in Hj. eapply Forall_forall in Hmiss; [|done].
    congruence. }
  rewrite lookup_app_l in Hi, Hj by lia.
  assert (reverse ks !! i = Some (cell sort_by ri)) as Hki
    by (rewrite <- Hknown, list_lookup_fmap, Hi; done).
  assert (reverse ks !! j = Some (cell sort_by rj)) as Hkj
    by (rewrite <- Hknown, list_lookup_fmap, Hj; done).
  apply reverse_lookup_Some in Hki as [Hki Hil], Hkj as [Hkj Hjl].
  split.
  - apply list_elem_of_lookup_2 in Hki.
    eapply take_idx_elem in Hki; [|done]. rewrite elem_of_reverse in Hki.
    pose proof (select_known_notna items) as Hnn. fold mask in Hnn.
    rewrite Forall_forall in Hnn. by apply Hnn.
  - eapply (is_ascending_lookup ks (length ks - S j) (length ks - S i));
      [done | lia | done..].
Qed.

End SortingOrder.

Lemma sort_and_display_permutes_witness :
  ∃ sorted, sort_values insertion_argsort dataset_sample "price_numeric" false
            = Ok sorted
    ∧ rows sorted ≡ₚ rows dataset_sample
    ∧ rows sample_sorted = take 3 (rows sorted)
    ∧ length (rows sample_sorted) = 3 `min` length (rows dataset_sample)
    ∧ (length (rows dataset_sample) ≤ 3 → rows sample_sorted ≡ₚ rows dataset_sample).
Proof.
  apply (sort_and_display_permutes insertion_argsort dataset_sample
           "price_numeric" 3 sample_sorted);
    [by_computation | exact sample_sorted_eq | apply insertion_argsort_perm].
Defined.

Lemma sort_and_display_descending_witness :
  isna (cell "price_numeric" sample_sorted_first) = false
  ∧ value_ltb (cell "price_numeric" sample_sorted_first)
              (cell "price_numeric" sample_sorted_second) = false.
Proof.
  apply (sort_and_display_descending insertion_argsort dataset_sample
           "price_numeric" 3 sample_sorted 0 1
           sample_sorted_first sample_sorted_second);
    [by_computation | exact sample_sorted_eq | by_computation | lia
    | reflexivity..].
Defined.

(** ** Price texts and neighbourhood names *)

(** X17. The stripped text of a price has none of the symbols [$], [,] and
    [+] left, wherever they stood; a text without them is unchanged, and
    stripping twice is stripping once. *)
Theorem re_sub_price_strips (s : string) :
  Forall (λ c, is_price_symbol c = false)
         (String.list_ascii_of_string (re_sub_price s))
  ∧ (Forall (λ c, is_price_symbol c = false) (String.list_ascii_of_string s) →
     re_sub_price s = s)
  ∧ re_sub_price (re_sub_price s) = re_sub_price s.
Proof.
  assert (∀ t, Forall (λ c, is_price_symbol c = false)
                      (String.list_ascii_of_string (re_sub_price t))) as Hnone.
  { induction t as [|c t IH]; simpl; [constructor|].
    destruct (is_price_symbol c) eqn:Hc; [done|]. simpl. by constructor. }
  assert (∀ t, Forall (λ c, is_price_symbol c = false) (String.list_ascii_of_string t) →
               re_sub_price t = t) as Hid.
  { induction t as [|c t IH]; simpl; [done|].
    intros [Hc Ht]%Forall_cons. rewrite Hc. f_equal. auto. }
  auto.
Qed.

Lemma span_non_comma_run s :
  first_comma (span_non_comma s).1 = None.
Proof.
  induction s as [|c s IH]; simpl; [done|].
  destruct (Ascii.eqb c ",") eqn:Hc; [done|].
  destruct (span_non_comma s) as [run rest]. simpl in *. by rewrite Hc, IH.
Qed.

Lemma re_search_no_comma_inside s g :
  re_search_neighborhood s = Some g → first_comma g = None.
Proof.
  induction s as [|c s IH]; simpl.
  - unfold re_match_neighborhood. simpl. done.
  - unfold re_match_neighborhood.
    pose proof (span_non_comma_run (String c s)) as Hrun.
    destruct (span_non_comma (String c s)) as [[|c' run] [|c'' rest]];
      simpl in Hrun; auto.
    by intros [= <-].
Qed.

Lemma lstrip_no_comma s : first_comma s = None → first_comma (lstrip s) = None.
Proof.
  induction s as [|c s IH]; simpl; [done|].
  destruct (Ascii.eqb c ",") eqn:Hc; [done|].
  destruct (first_comma s) eqn:Hs; [done|]. intros _.
  destruct (isspace c); [auto|]. simpl. by rewrite Hc, Hs.
Qed.

Lemma rstrip_no_comma s : first_comma s = None → first_comma (rstrip s) = None.
Proof.
  induction s as [|c s IH]; simpl; [done|].
  destruct (Ascii.eqb c ",") eqn:Hc; [done|].
  destruct (first_comma s) eqn:Hs; [done|]. intros _.
  specialize (IH eq_refl). destruct (rstrip s) as [|c' t].
  - destruct (isspace c); [done|]. simpl. by rewrite Hc.
  - simpl in *. by rewrite Hc, IH.
Qed.

Lemma lstrip_idempotent s : lstrip (lstrip s) = lstrip s.
Proof.
  induction s as [|c s IH]; simpl; [done|].
  destruct (isspace c) eqn:Hc; [done|]. simpl. by rewrite Hc.
Qed.

Lemma rstrip_idempotent s : rstrip (rstrip s) = rstrip s.
Proof.
  induction s as [|c s IH]; simpl; [done|].
  destruct (rstrip s) as [|c' t] eqn:Hs.
  - destruct (isspace c) eqn:Hc; [done|]. simpl. by rewrite Hc.
  - change (rstrip (String c (String c' t)))
      with (match rstrip (String c' t) with
            | EmptyString => if isspace c then EmptyString else String c EmptyString
            | u => String c u
            end).
    by rewrite IH.
Qed.

Lemma lstrip_rstrip s : lstrip s = s → lstrip (rstrip s) = rstrip s.
Proof.
  destruct s as [|c s]; [done|]. simpl.
  destruct (isspace c) eqn:Hc.
  - intros H. exfalso. revert H. clear.
    assert (∀ t, String.length (lstrip t) ≤ String.length t) as Hlen.
    { induction t as [|c' t IH]; simpl; [done|].
      destruct (isspace c'); simpl; lia. }
    intros H. specialize (Hlen s). rewrite H in Hlen. simpl in Hlen. lia.
  - intros _. destruct (rstrip s); simpl; by rewrite Hc.
Qed.

Lemma strip_idempotent s : strip (strip s) = strip s.
Proof.
  unfold strip. rewrite (lstrip_rstrip (lstrip s)) by apply lstrip_idempotent.
  by rewrite rstrip_idempotent.
Qed.

(** X18. A neighbourhood has no comma in it and no whitespace around it. *)
Theorem neighbourhood_is_clean (address : value) (n : string) :
  extract_neighborhood address = Str n →
  first_comma n = None ∧ strip n = n.
Proof.
  unfold extract_neighborhood, str_extract_neighborhood.
  destruct address as [| |s]; try done.
  destruct (re_search_neighborhood s) as [g|] eqn:Hg; [|done].
  simpl. intros [= <-]. split; [|apply strip_idempotent].
  unfold strip. by apply rstrip_no_comma, lstrip_no_comma,
    (re_search_no_comma_inside s).
Qed.

Lemma re_sub_price_strips_witness :
  re_sub_price "450000" = "450000".
Proof.
  apply (proj1 (proj2 (re_sub_price_strips "450000"))).
  vm_compute. repeat constructor.
Defined.

Lemma neighbourhood_is_clean_witness :
  first_comma "123 Main St" = None ∧ strip "123 Main St" = "123 Main St".
Proof.
  apply (neighbourhood_is_clean (Str " 123 Main St , Springfield, IL")).
  by_computation.
Defined.

(** ** The default selections *)

Lemma value_eqb_sym a b : value_eqb a b = value_eqb b a.
Proof.
  destruct a as [|p|s], b as [|q|t]; simpl; try done.
  - destruct (Qeq_bool p q) eqn:H1, (Qeq_bool q p) eqn:H2; try done.
    + apply Qeq_bool_iff in H1. symmetry in H1. apply Qeq_bool_iff in H1.
      congruence.
    + apply Qeq_bool_iff in H2. symmetry in H2. apply Qeq_bool_iff in H2.
      congruence.
  - apply String.eqb_sym.
Qed.

Lemma value_eqb_trans a b c :
  value_eqb a b = true → value_eqb b c = true → value_eqb a c = true.
Proof.
  destruct a as [|p|s], b as [|q|t], c as [|r|u]; simpl; try done.
  - rewrite !Qeq_bool_iff. intros H1 H2. by rewrite H1.
  - rewrite !String.eqb_eq. congruence.
Qed.

Lemma value_eqb_congr a b x :
  value_eqb a b = true → value_eqb a x = value_eqb b x.
Proof.
  intros H. destruct (value_eqb a x) eqn:H1, (value_eqb b x) eqn:H2; try done.
  - rewrite value_eqb_sym in H.
    by rewrite (value_eqb_trans _ _ _ H H1) in H2.
  - by rewrite (value_eqb_trans _ _ _ H H2) in H1.
Qed.

Lemma isin_cons x l v : isin (x :: l) v = value_eqb v x || isin l v.
Proof. done. Qed.

Lemma isin_app l k v : isin (l ++ k) v = isin l v || isin k v.
Proof. unfold isin. apply existsb_app. Qed.

Lemma isin_eqb l v w : value_eqb v w = true → isin l v = isin l w.
Proof.
  intros H. induction l as [|x l IH]; [done|].
  by rewrite !isin_cons, IH, (value_eqb_congr _ _ _ H).
Qed.

Lemma isin_true l v :
  isin l v = true ↔ ∃ x, x ∈ l ∧ value_eqb v x = true.
Proof.
  unfold isin. rewrite existsb_exists. split.
  - intros (x & Hx & H). exists x. split; [|done]. by apply list_elem_of_In.
  - intros (x & Hx & H). exists x. split; [|done]. by apply list_elem_of_In.
Qed.

Lemma isin_perm l k v : l ≡ₚ k → isin l v = isin k v.
Proof.
  induction 1 as [|x l k _ IH|x y l|l k m _ IH1 _ IH2]; [done|..].
  - by rewrite !isin_cons, IH.
  - rewrite !isin_cons. by destruct (value_eqb v x), (value_eqb v y).
  - congruence.
Qed.

Lemma isin_unique_acc col seen v :
  isin (foldl (λ seen v, if isin seen v then seen else seen ++ [v]) seen col) v
  = isin seen v || isin col v.
Proof.
  revert seen. induction col as [|x col IH]; intros seen.
  - simpl. by rewrite orb_false_r.
  - cbn [foldl]. rewrite IH, isin_cons. destruct (isin seen x) eqn:Hx.
    + destruct (value_eqb v x) eqn:Hv; [|done].
      by rewrite (isin_eqb _ _ _ Hv), Hx.
    + rewrite isin_app, isin_cons. cbn [isin existsb].
      by rewrite orb_false_r, orb_assoc.
Qed.

Lemma isin_unique col v : isin (unique col) v = isin col v.
Proof. unfold unique. by rewrite isin_unique_acc. Qed.

Lemma isin_dropna col v :
  isin (dropna col) v = negb (isna v) && isin col v.
Proof.
  unfold dropna. induction col as [|x col IH]; [by rewrite andb_false_r|].
  rewrite filter_cons, isin_cons. destruct (decide (isna x = false)) as [Hx|Hx].
  - rewrite isin_cons, IH.
    destruct (isna v) eqn:Hv; simpl; [|done].
    destruct v; try done. by destruct x.
  - rewrite IH. apply not_false_is_true in Hx. destruct x; try done.
    by destruct v.
Qed.

Lemma distinct_perm l k : l ≡ₚ k → distinct l = distinct k.
Proof.
  induction 1 as [|x l k Hp IH|x y l|l k m _ IH1 _ IH2]; [done|..].
  - cbn [distinct]. by rewrite IH, (isin_perm _ _ _ Hp).
  - cbn [distinct]. rewrite !isin_cons, (value_eqb_sym x y).
    by destruct (value_eqb y x), (isin l x), (isin l y).
  - congruence.
Qed.

Lemma distinct_snoc l x :
  distinct l = true → isin l x = false → distinct (l ++ [x]) = true.
Proof.
  intros Hd Hx.
  rewrite (distinct_perm (l ++ [x]) (x :: l)).
  - cbn [distinct]. by rewrite Hx.
  - by rewrite Permutation_app_comm.
Qed.

Lemma distinct_unique_acc col seen :
  distinct seen = true →
  distinct (foldl (λ seen v, if isin seen v then seen else seen ++ [v]) seen col)
  = true.
Proof.
  revert seen. induction col as [|x col IH]; intros seen Hs; [done|].
  cbn [foldl]. apply IH. destruct (isin seen x) eqn:Hx; [done|].
  by apply distinct_snoc.
Qed.

Lemma distinct_unique col : distinct (unique col) = true.
Proof. by apply distinct_unique_acc. Qed.

Lemma unique_sublist col : unique col `sublist_of` col.
Proof.
  unfold unique.
  assert (∀ seen, ∃ rest,
            foldl (λ seen v, if isin seen v then seen else seen ++ [v]) seen col
            = seen ++ rest ∧ rest `sublist_of` col) as H.
  { induction col as [|x col IH]; intros seen.
    - exists []. by rewrite app_nil_r.
    - cbn [foldl]. destruct (isin seen x).
      + destruct (IH seen) as (rest & -> & Hs). exists rest.
        split; [done|]. by constructor.
      + destruct (IH (seen ++ [x])) as (rest & -> & Hs). exists (x :: rest).
        split; [by rewrite <- app_assoc|]. by constructor. }
  by destruct (H []) as (rest & -> & Hs).
Qed.

Lemma options_notna col :
  Forall (λ v, isna v = false) (unique (dropna col)).
Proof.
  apply Forall_forall. intros v Hv.
  eapply elem_of_sublist in Hv; [|apply unique_sublist].
  by apply list_elem_of_filter in Hv as [? _].
Qed.

(** The values that the options select. *)
Lemma isin_options col v :
  isin (unique (dropna col)) v = true ↔ isna v = false ∧ isin col v = true.
Proof.
  rewrite isin_unique, isin_dropna, andb_true_iff, negb_true_iff. done.
Qed.

Lemma value_ltb_asym a b : value_ltb a b = true → value_ltb b a = false.
Proof.
  intros H. destruct (value_ltb b a) eqn:H'; [|done].
  destruct (value_lt_irrefl a). by apply (value_lt_trans a b a).
Qed.

#[global] Instance value_le_total : Total value_le.
Proof.
  intros a b. unfold value_le. destruct (value_ltb b a) eqn:H; [|by left].
  right. by apply value_ltb_asym.
Qed.

(** A list of distinct cells, none missing, that is in ascending order is in
    strictly ascending order. *)
Lemma Sorted_strict l :
  Sorted value_le l → distinct l = true → Forall (λ v, isna v = false) l →
  StronglySorted value_lt l.
Proof.
  intros Hs Hd Hn. apply Sorted_StronglySorted; [apply value_lt_trans|].
  induction Hs as [|x l _ IH Hhd]; [constructor|].
  simpl in Hd. apply andb_true_iff in Hd as [Hx Hd].
  apply Forall_cons in Hn as [Hnx Hn]. constructor; [by apply IH|].
  destruct Hhd as [|y l Hxy]; constructor.
  apply Forall_cons in Hn as [Hny _].
  apply negb_true_iff in Hx. rewrite isin_cons in Hx.
  apply orb_false_iff in Hx as [Hx _].
  destruct (value_trichotomy x y Hnx Hny) as [?|[?|?]]; [done|congruence|].
  unfold value_le in Hxy. congruence.
Qed.

Lemma sorted_Ok xs out :
  sorted xs = Ok out → out = merge_sort value_le xs.
Proof.
  unfold sorted. destruct (_ && _); [done|]. by intros ?%Ok_inj.
Qed.

(** X19. The options of "Bedrooms", which are selected by default, are the
    bedroom counts that some listing has, each one once and in strictly
    ascending order; a missing count is no option. *)
Theorem bedroom_options_ascending df bedrooms :
  bedroom_options df = Ok bedrooms →
  StronglySorted value_lt bedrooms
  ∧ ∀ v, isin bedrooms v = true
         ↔ isna v = false ∧ isin (cell "bedrooms_numeric" <$> rows df) v = true.
Proof.
  intros H. unfold bedroom_options in H.
  apply bind_Ok in H as (col & Hcol & H). apply getitem_Ok in Hcol as [_ ->].
  apply sorted_Ok in H as ->.
  set (col := cell "bedrooms_numeric" <$> rows df).
  pose proof (merge_sort_Permutation value_le (unique (dropna col))) as Hp.
  split.
  - apply Sorted_strict.
    + apply Sorted_merge_sort, _.
    + rewrite (distinct_perm _ _ Hp). apply distinct_unique.
    + rewrite Hp. apply options_notna.
  - intros v. rewrite (isin_perm _ _ v Hp). apply isin_options.
Qed.

Lemma unique_unseen_acc col seen :
  foldl (λ seen v, if isin seen v then seen else seen ++ [v]) seen col
  = seen ++ unseen seen col.
Proof.
  revert seen. induction col as [|x col IH]; intros seen.
  - by rewrite app_nil_r.
  - cbn [foldl unseen]. rewrite IH. destruct (isin seen x); [done|].
    by rewrite <- app_assoc.
Qed.

Lemma unique_unseen col : unique col = unseen [] col.
Proof. unfold unique. by rewrite unique_unseen_acc. Qed.

Lemma first_index_cons_ne x col v p :
  value_eqb x v = false → first_index col v = Some p →
  first_index (x :: col) v = Some (S p).
Proof. intros Hx Hp. cbn [first_index]. by rewrite Hx, Hp. Qed.

(** The values that [unique] adds, on the cells that are not missing, are
    each the cell at the first position of its value, and these positions
    ascend. *)
Lemma unseen_positions col seen :
  ∃ ps,
    Forall2 (λ v p, first_index col v = Some p ∧ col !! p = Some v)
            (unseen seen (dropna col)) ps
    ∧ StronglySorted lt ps
    ∧ Forall (λ v, isin seen v = false ∧ isna v = false)
             (unseen seen (dropna col)).
Proof.
  revert seen. induction col as [|x col IH]; intros seen.
  { exists []. repeat split; constructor. }
  assert (∀ vs ps,
    Forall2 (λ v p, first_index col v = Some p ∧ col !! p = Some v) vs ps →
    Forall (λ v, value_eqb x v = false) vs →
    Forall2 (λ v p, first_index (x :: col) v = Some p ∧ (x :: col) !! p = Some v)
            vs (S <$> ps)) as Hshift.
  { intros vs ps H2 Hne. apply Forall2_fmap_r.
    induction H2 as [|v p vs ps [Hv Hp] _ IH2]; [constructor|].
    apply Forall_cons in Hne as [Hx Hne].
    constructor; [|by apply IH2]. split; [by apply first_index_cons_ne | done]. }
  assert (∀ ps : list nat, StronglySorted lt ps → StronglySorted lt (S <$> ps))
    as Hsucc.
  { intros ps Hps. induction Hps as [|p ps _ IHp Hall]; [constructor|].
    rewrite fmap_cons. constructor; [done|].
    apply Forall_fmap. eapply Forall_impl; [exact Hall|]. intros q Hq. simpl. lia. }
  unfold dropna. rewrite filter_cons. fold (dropna col).
  destruct (decide (isna x = false)) as [Hx|Hx].
  - cbn [unseen]. destruct (isin seen x) eqn:Hs.
    + destruct (IH seen) as (ps & H2 & Hps & Hall). exists (S <$> ps).
      split; [|split; [by apply Hsucc | done]].
      apply Hshift; [done|]. eapply Forall_impl; [exact Hall|].
      intros v [Hv _]. simpl. destruct (value_eqb x v) eqn:He; [|done].
      by rewrite (isin_eqb _ _ _ He), Hv in Hs.
    + destruct (IH (seen ++ [x])) as (ps & H2 & Hps & Hall).
      assert (Forall (λ v, value_eqb x v = false)
                     (unseen (seen ++ [x]) (dropna col))) as Hne.
      { eapply Forall_impl; [exact Hall|]. intros v [Hv _]. simpl in *.
        rewrite isin_app, isin_cons in Hv.
        apply orb_false_iff in Hv as [_ Hv]. apply orb_false_iff in Hv as [Hv _].
        by rewrite value_eqb_sym. }
      exists (0 :: (S <$> ps)). split; [|split].
      * constructor; [|by apply Hshift]. cbn [first_index].
        by rewrite value_eqb_refl.
      * constructor; [by apply Hsucc|].
        apply Forall_fmap, Forall_forall. intros q _. simpl. lia.
      * constructor; [done|]. eapply Forall_impl; [exact Hall|].
        intros v [Hv Hn]. split; [|done]. rewrite isin_app in Hv.
        by apply orb_false_iff in Hv as [? _].
  - destruct (IH seen) as (ps & H2 & Hps & Hall). exists (S <$> ps).
    split; [|split; [by apply Hsucc | done]].
    apply Hshift; [done|]. eapply Forall_impl; [exact Hall|].
    intros v [_ Hv]. simpl. apply not_false_is_true in Hx.
    by destruct x, v.
Qed.

(** X20. The options of "Property Type", which are selected by default, are
    the property types that some listing has, each one once and in the order
    in which the listings first show them: each option is the cell of the
    first listing that has its value, and these listings come in the order
    of the view.  A missing type is no option. *)
Theorem property_type_options_first_seen df property_types :
  property_type_options df = Ok property_types →
  let col := cell "property_type" <$> rows df in
  (∀ v, isin property_types v = true ↔ isna v = false ∧ isin col v = true)
  ∧ distinct property_types = true
  ∧ ∃ ps, Forall2 (λ v p, first_index col v = Some p ∧ col !! p = Some v)
                  property_types ps
          ∧ StronglySorted lt ps.
Proof.
  intros H col. unfold property_type_options in H.
  apply bind_Ok in H as (col' & Hcol & H). apply getitem_Ok in Hcol as [_ ->].
  apply Ok_inj in H as <-. fold col. split; [|split].
  - apply isin_options.
  - apply distinct_unique.
  - rewrite unique_unseen.
    destruct (unseen_positions col []) as (ps & H2 & Hps & _). eauto.
Qed.

(** A multiselect whose selection is the known values of its column lets
    through the listings that have a value, and all of them when none has. *)
Lemma passes_default df c selected r :
  (∀ v, isin selected v = true
        ↔ isna v = false ∧ isin (cell c <$> rows df) v = true) →
  r ∈ rows df →
  passes c selected r = known_or_unused df c r.
Proof.
  intros Hsel Hr. unfold known_or_unused.
  assert (∀ r', r' ∈ rows df → isin (cell c <$> rows df) (cell c r') = true)
    as Hin.
  { intros r' Hr'. apply isin_true. exists (cell c r').
    split; [by apply list_elem_of_fmap_2 | apply value_eqb_refl]. }
  destruct selected as [|v0 sel].
  - simpl. symmetry. apply orb_true_iff. right. apply forallb_forall.
    intros r' Hr'%list_elem_of_In.
    destruct (isna (cell c r')) eqn:Hna; [done|].
    assert (isin [] (cell c r') = true) as Hf by (apply Hsel; auto).
    done.
  - change (passes c (v0 :: sel) r) with (isin (v0 :: sel) (cell c r)).
    destruct (isna (cell c r)) eqn:Hna; simpl.
    + assert (forallb (λ r', isna (cell c r')) (rows df) = false) as ->.
      { apply not_true_is_false. intros Hall.
        assert (isin (v0 :: sel) v0 = true) as Hv0.
        { by rewrite isin_cons, value_eqb_refl. }
        apply Hsel in Hv0 as [Hn0 Hv0]. apply isin_true in Hv0 as (x & Hx & He).
        apply list_elem_of_fmap in Hx as (r' & -> & Hr').
        rewrite forallb_forall in Hall.
        specialize (Hall r' (proj1 (list_elem_of_In _ _) Hr')).
        destruct v0; try done; by destruct (cell c r'). }
      apply not_true_is_false. intros [Hn _]%Hsel. congruence.
    + apply Hsel. auto.
Qed.

Lemma filter_ext_in {A} (f g : A → bool) (l : list A) :
  (∀ x, x ∈ l → f x = g x) →
  filter (λ x, f x = true) l = filter (λ x, g x = true) l.
Proof.
  intros H. induction l as [|x l IH]; [done|].
  rewrite !filter_cons, IH by (intros; apply H; by right).
  rewrite (H x) by left. done.
Qed.

(** X21. Under the default selections the view holds the listings within the
    price range that have a bedroom count and a property type: a listing
    with one of them missing is hidden, unless it is missing in every
    listing, in which case that multiselect is empty and filters nothing. *)
Theorem default_selections_hide_unknown df price_range bedrooms property_types out :
  bedroom_options df = Ok bedrooms →
  property_type_options df = Ok property_types →
  apply_filters df price_range bedrooms property_types = Ok out →
  rows out = filter (λ r, kept_by_default df price_range r = true) (rows df).
Proof.
  intros Hb Hp H.
  apply apply_filters_rows in H as [_ ->].
  assert (∀ v, isin bedrooms v = true
           ↔ isna v = false ∧ isin (cell "bedrooms_numeric" <$> rows df) v = true)
    as Hbs.
  { unfold bedroom_options in Hb.
    apply bind_Ok in Hb as (col & Hcol & Hb). apply getitem_Ok in Hcol as [_ ->].
    apply sorted_Ok in Hb as ->. intros v.
    rewrite (isin_perm _ _ v (merge_sort_Permutation _ _)). apply isin_options. }
  assert (∀ v, isin property_types v = true
           ↔ isna v = false ∧ isin (cell "property_type" <$> rows df) v = true)
    as Hps.
  { unfold property_type_options in Hp.
    apply bind_Ok in Hp as (col & Hcol & Hp). apply getitem_Ok in Hcol as [_ ->].
    apply Ok_inj in Hp as <-. apply isin_options. }
  apply filter_ext_in. intros r Hr. unfold kept, kept_by_default.
  by rewrite (passes_default df _ _ r Hbs Hr), (passes_default df _ _ r Hps Hr).
Qed.

Section SidebarAfterNormalisation.

Variable py_float : string → option (option Q).
Variable pd_numeric : string → option Q.

Lemma normalised_bedrooms_not_text listings df :
  listings ≠ [] →
  process_listings_data py_float pd_numeric listings = Ok df →
  Forall (λ v, is_str v = false) (cell "bedrooms_numeric" <$> rows df).
Proof.
  intros Hne H.
  destruct (process_listings_data_Ok py_float pd_numeric listings df Hne H)
    as (_ & _ & Hrows).
  apply Forall_fmap, Forall_forall. intros r Hr. rewrite Hrows in Hr.
  apply list_elem_of_lookup in Hr as [i Hr].
  apply lookup_zip_with_Some in Hr as (l & p & -> & _ & _).
  unfold normalised. simpl.
  rewrite !(cell_insert_ne "neighborhood") by done.
  rewrite !(cell_insert_ne "sqft_numeric") by done.
  rewrite !(cell_insert_ne "bathrooms_numeric") by done.
  rewrite cell_insert_eq.
  destruct (cell "bedrooms" l) as [| |s]; simpl; try done.
  by destruct (pd_numeric s).
Qed.

(** X22. On the frame of a normalisation the options of "Bedrooms" are
    always computed, the coerced counts being numbers; the options of
    "Property Type" are computed exactly when some listing has the field
    [property_type], and raise [KeyError] otherwise. *)
Theorem sidebar_options_after_normalisation listings df :
  listings ≠ [] →
  process_listings_data py_float pd_numeric listings = Ok df →
  (∃ bedrooms, bedroom_options df = Ok bedrooms)
  ∧ ((∃ l, l ∈ listings ∧ is_Some (l !! "property_type")) →
     ∃ property_types, property_type_options df = Ok property_types)
  ∧ ((∀ l, l ∈ listings → l !! "property_type" = None) →
     property_type_options df = Err (KeyError "property_type")).
Proof.
  intros Hne H.
  pose proof (normalised_bedrooms_not_text listings df Hne H) as Hns.
  destruct (process_listings_data_Ok py_float pd_numeric listings df Hne H)
    as (_ & Hc & _).
  assert (∀ c, c ∈ columns df
           ↔ c ∈ derived_columns ∨ ∃ l, l ∈ listings ∧ is_Some (l !! c)) as Hcols.
  { intros c. rewrite Hc, elem_of_union, elem_of_list_to_set.
    by rewrite elem_of_columns_of_records. }
  split; [|split].
  - unfold bedroom_options, getitem. rewrite decide_True.
    2:{ apply Hcols. left. unfold derived_columns. right. left. }
    simpl. unfold sorted.
    assert (existsb is_str
              (unique (dropna (cell "bedrooms_numeric" <$> rows df))) = false)
      as ->.
    { apply not_true_is_false. intros (v & Hv%list_elem_of_In & Hs)%existsb_exists.
      eapply elem_of_sublist in Hv; [|apply unique_sublist].
      apply list_elem_of_filter in Hv as [_ Hv].
      rewrite Forall_forall in Hns. rewrite (Hns v Hv) in Hs. done. }
    rewrite andb_false_r. eauto.
  - intros Hl. unfold property_type_options, getitem.
    rewrite decide_True by (apply Hcols; by right). simpl. eauto.
  - intros Hnone. unfold property_type_options, getitem.
    rewrite decide_False; [done|].
    intros [Hd|(l & Hl & Hs)]%Hcols.
    + unfold derived_columns in Hd.
      repeat (apply elem_of_cons in Hd as [Hd|Hd]; [discriminate|]).
      by apply elem_of_nil in Hd.
    + rewrite (Hnone l Hl) in Hs. by destruct Hs.
Qed.

End SidebarAfterNormalisation.

Lemma dataset_gaps_eq :
  process_listings_data decimal_float parse_decimal listings_gaps
  = Ok dataset_gaps.
Proof. by_computation. Qed.

Lemma gaps_bedrooms_eq : bedroom_options dataset_gaps = Ok gaps_bedrooms.
Proof. by_computation. Qed.

Lemma gaps_property_types_eq :
  property_type_options dataset_gaps = Ok gaps_property_types.
Proof. by_computation. Qed.

Lemma bedroom_options_ascending_witness :
  StronglySorted value_lt gaps_bedrooms
  ∧ ∀ v, isin gaps_bedrooms v = true
         ↔ isna v = false
           ∧ isin (cell "bedrooms_numeric" <$> rows dataset_gaps) v = true.
Proof.
  apply (bedroom_options_ascending dataset_gaps gaps_bedrooms).
  exact gaps_bedrooms_eq.
Defined.

Lemma property_type_options_first_seen_witness :
  let col := cell "property_type" <$> rows dataset_gaps in
  (∀ v, isin gaps_property_types v = true ↔ isna v = false ∧ isin col v = true)
  ∧ distinct gaps_property_types = true
  ∧ ∃ ps, Forall2 (λ v p, first_index col v = Some p ∧ col !! p = Some v)
                  gaps_property_types ps
          ∧ StronglySorted lt ps.
Proof.
  apply (property_type_options_first_seen dataset_gaps gaps_property_types).
  exact gaps_property_types_eq.
Defined.

Lemma default_selections_hide_unknown_witness :
  rows (boolean_index dataset_gaps [true; false; false; true])
  = filter (λ r, kept_by_default dataset_gaps sample_range r = true)
           (rows dataset_gaps).
Proof.
  apply (default_selections_hide_unknown dataset_gaps sample_range
           gaps_bedrooms gaps_property_types);
    [exact gaps_bedrooms_eq | exact gaps_property_types_eq | by_computation].
Defined.

Lemma sidebar_options_after_normalisation_witness :
  (∃ bedrooms, bedroom_options dataset_gaps = Ok bedrooms)
  ∧ ((∃ l, l ∈ listings_gaps ∧ is_Some (l !! "property_type")) →
     ∃ property_types, property_type_options dataset_gaps = Ok property_types)
  ∧ ((∀ l, l ∈ listings_gaps → l !! "property_type" = None) →
     property_type_options dataset_gaps = Err (KeyError "property_type")).
Proof.
  apply (sidebar_options_after_normalisation decimal_float parse_decimal
           listings_gaps dataset_gaps); [discriminate | exact dataset_gaps_eq].
Defined.

(** ** The bedroom chart *)

Lemma zip_fmap_self {A B} (f : A → B) (l : list A) :
  zip l (f <$> l) = (λ x, (x, f x)) <$> l.
Proof. induction l as [|x l IH]; [done|]. simpl. f_equal. exact IH. Qed.

Lemma take_idx_fmap {A B} (f : A → B) (l : list A) idx k :
  take_idx l idx = Ok k → take_idx (f <$> l) idx = Ok (f <$> k).
Proof.
  rewrite !take_idx_Forall2. induction 1 as [|i x idx k Hi _ IH]; constructor;
    [|done]. by rewrite list_lookup_fmap, Hi.
Qed.

Lemma omap_lookup_seq_id n idx :
  Forall (λ i, i < n) idx → omap (λ i, seq 0 n !! i) idx = idx.
Proof.
  induction 1 as [|i idx Hi _ IH]; [done|].
  cbn [omap list_omap]. rewrite lookup_seq_lt by done. simpl. by rewrite IH.
Qed.

Lemma select_all_known {A} (keys : list value) (l : list A) :
  Forall (λ v, isna v = false) keys → length l = length keys →
  select (negb <$> (isna <$> keys)) l = l ∧ select (isna <$> keys) l = [].
Proof.
  intros H. revert l. induction H as [|v keys Hv _ IH]; intros [|x l] Hlen;
    try done.
  rewrite !fmap_cons. cbn [select]. rewrite Hv. cbn [negb].
  destruct (IH l) as [H1 H2]; [simpl in Hlen; lia|]. by rewrite H1, H2.
Qed.

Lemma is_ascending_Sorted l : is_ascending l = true → Sorted value_le l.
Proof.
  induction l as [|x l IH]; [constructor|].
  simpl. intros [Hall Hl]%andb_true_iff. constructor; [auto|].
  destruct l as [|y l]; constructor.
  simpl in Hall. apply andb_true_iff in Hall as [Hy _].
  by apply negb_true_iff in Hy.
Qed.

Lemma nondecreasing_Sorted l : nondecreasing l = true → Sorted value_le l.
Proof.
  induction l as [|x l IH]; [constructor|].
  destruct l as [|y l]; [repeat constructor|].
  cbn [nondecreasing]. intros [Hy Hl]%andb_true_iff.
  constructor; [auto|]. constructor. by apply negb_true_iff in Hy.
Qed.

Lemma sum_list_fmap_add {A} (f g : A → nat) (l : list A) :
  sum_list ((λ x, f x + g x) <$> l) = sum_list (f <$> l) + sum_list (g <$> l).
Proof. induction l as [|x l IH]; [done|]. csimpl. rewrite IH. lia. Qed.

(** A value is one of at most one of distinct keys. *)
Lemma sum_indicator ks x :
  distinct ks = true →
  sum_list ((λ k, if value_eqb x k then 1 else 0) <$> ks)
  = if isin ks x then 1 else 0.
Proof.
  induction ks as [|k ks IH]; [done|].
  cbn [distinct]. intros [Hk Hd]%andb_true_iff. apply negb_true_iff in Hk.
  rewrite isin_cons. csimpl. rewrite IH by done.
  destruct (value_eqb x k) eqn:Hx; [|done].
  by rewrite (isin_eqb _ _ _ Hx), Hk.
Qed.

(** The occurrences of distinct keys add up to the cells that hold one of
    them. *)
Lemma sum_occurrences ks col :
  distinct ks = true →
  sum_list (occurrences col <$> ks)
  = length (filter (λ v, isin ks v = true) col).
Proof.
  intros Hd. induction col as [|x col IH].
  - unfold occurrences. simpl. induction ks as [|k ks IHk]; [done|].
    simpl in *. apply andb_true_iff in Hd as [_ Hd]. auto.
  - rewrite filter_cons.
    assert (sum_list (occurrences (x :: col) <$> ks)
            = sum_list ((λ k, if value_eqb x k then 1 else 0) <$> ks)
              + sum_list (occurrences col <$> ks)) as ->.
    { rewrite <- sum_list_fmap_add. f_equal. apply list_fmap_ext.
      intros _ k _. unfold occurrences. rewrite filter_cons.
      destruct (value_eqb x k) eqn:Hx.
      - by rewrite decide_True.
      - by rewrite decide_False by done. }
    rewrite sum_indicator, IH by done.
    destruct (isin ks x) eqn:Hx.
    + by rewrite decide_True.
    + by rewrite decide_False by done.
Qed.

Lemma occurrences_pos col k : k ∈ col → 0 < occurrences col k.
Proof.
  intros Hk. unfold occurrences.
  assert (k ∈ filter (λ v, value_eqb v k = true) col) as Hin.
  { apply list_elem_of_filter. split; [apply value_eqb_refl | done]. }
  destruct (filter _ col); [by apply elem_of_nil in Hin | simpl; lia].
Qed.

Lemma length_filter_fmap {A B} (f : A → B) (P : B → Prop)
    `{∀ y, Decision (P y)} (l : list A) :
  length (filter P (f <$> l)) = length (filter (λ x, P (f x)) l).
Proof.
  induction l as [|x l IH]; [done|].
  rewrite fmap_cons, !filter_cons.
  destruct (decide (P (f x))); cbn [length]; by rewrite IH.
Qed.

Lemma sum_list_perm (l k : list nat) : l ≡ₚ k → sum_list l = sum_list k.
Proof.
  induction 1 as [|x l k _ IH|x y l|l k m _ IH1 _ IH2]; simpl; lia.
Qed.

Section BedroomChartProperties.

Variable np_argsort : list value → list nat.

(** [argsort] returns the positions of its array, each one once. *)
Hypothesis argsort_perm : ∀ a, np_argsort a ≡ₚ seq 0 (length a).

Lemma nargsort_perm items ascending indexer :
  nargsort np_argsort items ascending = Ok indexer →
  indexer ≡ₚ seq 0 (length items).
Proof using argsort_perm.
  intros H. unfold nargsort in H. cbv zeta in H.
  destruct (existsb is_num _ && existsb is_str _); [discriminate|].
  apply bind_Ok in H as (ix & Hix & H). apply Ok_inj in H as <-.
  set (mask := isna <$> items) in *. set (n := length items) in *.
  assert (length mask = length (seq 0 n)) as Hlen.
  { unfold mask, n. by rewrite length_fmap, length_seq. }
  assert (length (select (negb <$> mask) items)
          = length (select (negb <$> mask) (seq 0 n))) as Hsel.
  { apply select_length. unfold n. by rewrite length_seq. }
  apply take_idx_perm in Hix.
  2:{ rewrite argsort_perm. destruct ascending; rewrite ?length_reverse;
        by rewrite Hsel. }
  destruct ascending.
  - rewrite Hix. by apply select_partition.
  - rewrite reverse_Permutation, Hix, reverse_Permutation.
    by apply select_partition.
Qed.

Lemma value_counts_perm col vc :
  value_counts np_argsort col = Ok vc →
  vc ≡ₚ (λ k, (k, occurrences col k)) <$> unique (dropna col).
Proof using argsort_perm.
  intros H. unfold value_counts in H. cbv zeta in H.
  apply bind_Ok in H as (ix & Hix & H). apply nargsort_perm in Hix.
  rewrite zip_fmap_self in H. apply take_idx_perm in H; [done|].
  by rewrite Hix, !length_fmap.
Qed.

Lemma sort_index_perm s out :
  sort_index np_argsort s = Ok out → out ≡ₚ s.
Proof using argsort_perm.
  unfold sort_index. destruct (is_monotonic_increasing _).
  - by intros <-%Ok_inj.
  - intros H. apply bind_Ok in H as (ix & Hix & H). apply nargsort_perm in Hix.
    apply take_idx_perm in H; [done|]. by rewrite Hix, length_fmap.
Qed.

Lemma create_bedroom_analysis_chart_Some df bars :
  create_bedroom_analysis_chart np_argsort df = Ok (Some bars) →
  ∃ vc, value_counts np_argsort (cell "bedrooms_numeric" <$> rows df) = Ok vc
        ∧ sort_index np_argsort vc = Ok bars.
Proof.
  unfold create_bedroom_analysis_chart. destruct (_ || _); [done|]. intros H.
  apply bind_Ok in H as (col & Hcol & H). apply getitem_Ok in Hcol as [_ ->].
  apply bind_Ok in H as (vc & Hvc & H). apply bind_Ok in H as (out & Hout & H).
  apply bind_Ok in H as (fig & Hfig & H).
  assert (fig = out) as -> by (destruct out; [done | by apply Ok_inj in Hfig]).
  apply Ok_inj in H. exists vc. split; [done|]. congruence.
Qed.

Lemma bedroom_chart_perm df bars :
  create_bedroom_analysis_chart np_argsort df = Ok (Some bars) →
  let col := cell "bedrooms_numeric" <$> rows df in
  bars ≡ₚ (λ k, (k, occurrences col k)) <$> unique (dropna col).
Proof using argsort_perm.
  intros (vc & Hvc & Hs)%create_bedroom_analysis_chart_Some col.
  apply sort_index_perm in Hs. apply value_counts_perm in Hvc.
  by rewrite Hs, Hvc.
Qed.

(** X23. When [argsort] returns each position of its array once, the bars
    of the bedroom chart are the bedroom counts that some listing of the
    view has, each once, with the number of listings that have it, which is
    not zero; the bars add up to the number of listings whose bedroom count
    is known. *)
Theorem bedroom_chart_counts df bars :
  create_bedroom_analysis_chart np_argsort df = Ok (Some bars) →
  let col := cell "bedrooms_numeric" <$> rows df in
  bars.*1 ≡ₚ unique (dropna col)
  ∧ Forall (λ b, isna b.1 = false ∧ b.2 = occurrences col b.1 ∧ 0 < b.2) bars
  ∧ sum_list (bars.*2)
    = length (filter (λ r, isna (cell "bedrooms_numeric" r) = false) (rows df)).
Proof using argsort_perm.
  intros H col. pose proof (bedroom_chart_perm df bars H) as Hp.
  fold col in Hp. cbv zeta in Hp. split; [|split].
  - rewrite Hp, <- list_fmap_compose. by rewrite list_fmap_id.
  - rewrite Hp. apply Forall_fmap, Forall_forall. intros k Hk. simpl.
    pose proof (options_notna col) as Hn. rewrite Forall_forall in Hn.
    split; [by apply Hn|]. split; [done|]. apply occurrences_pos.
    eapply elem_of_sublist in Hk; [|apply unique_sublist].
    by apply list_elem_of_filter in Hk as [_ ?].
  - rewrite (sum_list_perm _ _ (fmap_Permutation snd _ _ Hp)).
    rewrite <- list_fmap_compose.
    change (snd ∘ (λ k, (k, occurrences col k))) with (occurrences col).
    rewrite sum_occurrences by apply distinct_unique.
    rewrite (filter_ext_in (isin (unique (dropna col))) (λ v, negb (isna v))).
    2:{ intros v Hv. rewrite isin_unique, isin_dropna.
        assert (isin col v = true) as ->; [|by rewrite andb_true_r].
        apply isin_true. exists v. split; [done | apply value_eqb_refl]. }
    unfold col. rewrite length_filter_fmap. f_equal.
    apply list_filter_iff. intros r. by rewrite negb_true_iff.
Qed.

(** X24. When moreover the labels of the value counts are ascending in the
    order of the indices that [argsort] returns for them, the bars are in
    strictly ascending order of the number of bedrooms. *)
Theorem bedroom_chart_ascending df bars :
  create_bedroom_analysis_chart np_argsort df = Ok (Some bars) →
  (∀ vc, value_counts np_argsort (cell "bedrooms_numeric" <$> rows df) = Ok vc →
         is_ascending <$> take_idx (vc.*1) (np_argsort (vc.*1)) = Ok true) →
  StronglySorted value_lt (bars.*1).
Proof using argsort_perm.
  intros H Hasc. pose proof (bedroom_chart_perm df bars H) as Hp.
  cbv zeta in Hp.
  set (col := cell "bedrooms_numeric" <$> rows df) in *.
  assert (bars.*1 ≡ₚ unique (dropna col)) as Hkeys.
  { rewrite Hp, <- list_fmap_compose. by rewrite list_fmap_id. }
  destruct (create_bedroom_analysis_chart_Some df bars H) as (vc & Hvc & Hs).
  fold col in Hvc. specialize (Hasc vc Hvc).
  apply Sorted_strict.
  - unfold sort_index in Hs.
    destruct (is_monotonic_increasing (vc.*1)) eqn:Hmono.
    + apply Ok_inj in Hs as <-. apply nondecreasing_Sorted.
      unfold is_monotonic_increasing in Hmono.
      by apply andb_true_iff in Hmono as [_ ?].
    + apply bind_Ok in Hs as (ix & Hix & Hs).
      assert (Forall (λ v, isna v = false) (vc.*1)) as Hn.
      { assert (vc.*1 ≡ₚ unique (dropna col)) as ->; [|apply options_notna].
        rewrite (value_counts_perm col vc Hvc), <- list_fmap_compose.
        by rewrite list_fmap_id. }
      unfold nargsort in Hix. cbv zeta in Hix.
      destruct (existsb is_num _ && existsb is_str _); [discriminate|].
      apply bind_Ok in Hix as (ix0 & Hix0 & Hix). apply Ok_inj in Hix as <-.
      destruct (select_all_known (vc.*1) (vc.*1) Hn eq_refl) as [Hk _].
      destruct (select_all_known (vc.*1) (seq 0 (length (vc.*1))) Hn)
        as [Hi Hm]; [by rewrite length_seq|].
      rewrite Hk, Hi in Hix0. rewrite Hm, app_nil_r in Hs.
      apply take_idx_omap in Hix0. rewrite omap_lookup_seq_id in Hix0.
      2:{ apply Forall_forall. intros i Hin. rewrite argsort_perm in Hin.
          apply elem_of_seq in Hin. lia. }
      subst ix0. apply (take_idx_fmap fst) in Hs. rewrite Hs in Hasc.
      simpl in Hasc. apply Ok_inj in Hasc. by apply is_ascending_Sorted.
  - rewrite (distinct_perm _ _ Hkeys). apply distinct_unique.
  - rewrite Hkeys. apply options_notna.
Qed.

End BedroomChartProperties.

(** The counts of a column of numbers and missing values are computed and
    sorted without an exception. *)
Lemma bedroom_counts_total np_argsort (col : list value) :
  (∀ a, np_argsort a ≡ₚ seq 0 (length a)) →
  existsb is_str col = false →
  ∃ vc bars, value_counts np_argsort col = Ok vc
             ∧ sort_index np_argsort vc = Ok bars.
Proof.
  intros Hperm Hns.
  assert (∀ items asc, existsb is_str items = false →
            ∃ ix, nargsort np_argsort items asc = Ok ix) as Hnarg.
  { intros items asc Hstr. unfold nargsort. cbv zeta.
    set (mask := isna <$> items).
    assert (existsb is_str (if asc then select (negb <$> mask) items
                            else reverse (select (negb <$> mask) items)) = false)
      as ->.
    { apply not_true_is_false. intros (v & Hv & Hs)%existsb_exists.
      apply list_elem_of_In in Hv.
      assert (v ∈ items) as Hin.
      { destruct asc; [|rewrite elem_of_reverse in Hv];
          by eapply elem_of_sublist, select_sublist. }
      assert (existsb is_str items = true); [|congruence].
      apply existsb_exists. exists v. by rewrite <- list_elem_of_In. }
    rewrite andb_false_r.
    destruct (take_idx_total
                (if asc then select (negb <$> mask) (seq 0 (length items))
                 else reverse (select (negb <$> mask) (seq 0 (length items))))
                (np_argsort (if asc then select (negb <$> mask) items
                             else reverse (select (negb <$> mask) items))))
      as [ix0 ->]; [|simpl; eauto].
    apply Forall_forall. intros i Hi. rewrite Hperm in Hi.
    apply elem_of_seq in Hi.
    assert (length (select (negb <$> mask) items)
            = length (select (negb <$> mask) (seq 0 (length items)))) as Hsel.
    { apply select_length. by rewrite length_seq. }
    destruct asc; rewrite ?length_reverse in *; lia. }
  destruct (Hnarg (of_nat <$> (occurrences col <$> unique (dropna col))) false)
    as [ix Hix].
  { apply not_true_is_false. intros (v & Hv & Hs)%existsb_exists.
    apply list_elem_of_In, list_elem_of_fmap in Hv as (n & -> & _). done. }
  unfold value_counts. cbv zeta. rewrite Hix. simpl.
  pose proof (nargsort_perm np_argsort Hperm _ _ _ Hix) as Hp.
  rewrite !length_fmap in Hp.
  destruct (take_idx_total (zip (unique (dropna col))
                                (occurrences col <$> unique (dropna col))) ix)
    as [vc Hvc].
  { apply Forall_forall. intros i Hi. rewrite Hp in Hi. apply elem_of_seq in Hi.
    rewrite zip_fmap_self, length_fmap. lia. }
  rewrite Hvc. exists vc. unfold sort_index.
  destruct (is_monotonic_increasing (vc.*1)); [eauto|].
  destruct (Hnarg (vc.*1) true) as [ix' Hix'].
  { apply not_true_is_false. intros (v & Hv & Hs)%existsb_exists.
    apply list_elem_of_In, list_elem_of_fmap in Hv as ([k n] & -> & Hb).
    simpl in Hs. apply take_idx_elem with (y := (k, n)) in Hvc; [|done].
    rewrite zip_fmap_self in Hvc.
    apply list_elem_of_fmap in Hvc as (k' & Heq & Hk).
    injection Heq as <- _.
    eapply elem_of_sublist in Hk; [|apply unique_sublist].
    apply list_elem_of_filter in Hk as [_ Hk].
    assert (existsb is_str col = true); [|congruence].
    apply existsb_exists. exists k. by rewrite <- list_elem_of_In. }
  rewrite Hix'. simpl.
  pose proof (nargsort_perm np_argsort Hperm _ _ _ Hix') as Hp'.
  rewrite length_fmap in Hp'.
  destruct (take_idx_total vc ix') as [bars ->]; [|eauto].
  apply Forall_forall. intros i Hi. rewrite Hp' in Hi. apply elem_of_seq in Hi.
  lia.
Qed.

(** What [create_bedroom_analysis_chart] does on a view whose bedroom counts
    are numbers or missing: no chart without listings or without the
    column, [ValueError] from [px.bar] when no listing has a bedroom count,
    and a figure otherwise. *)
Lemma create_bedroom_analysis_chart_outcome np_argsort df :
  (∀ a, np_argsort a ≡ₚ seq 0 (length a)) →
  Forall (λ r, is_str (cell "bedrooms_numeric" r) = false) (rows df) →
  let no_chart :=
    empty df || negb (bool_decide ("bedrooms_numeric" ∈ columns df)) in
  (no_chart = true → create_bedroom_analysis_chart np_argsort df = Ok None)
  ∧ (no_chart = false → bedrooms_known df = false →
     create_bedroom_analysis_chart np_argsort df = Err ValueError)
  ∧ (no_chart = false → bedrooms_known df = true →
     ∃ bars, create_bedroom_analysis_chart np_argsort df = Ok (Some bars)).
Proof.
  intros Hperm Hns no_chart. subst no_chart.
  set (col := cell "bedrooms_numeric" <$> rows df).
  assert (existsb is_str col = false) as Hstr.
  { apply not_true_is_false. intros (v & Hv & Hs)%existsb_exists.
    apply list_elem_of_In, list_elem_of_fmap in Hv as (r & -> & Hr).
    rewrite Forall_forall in Hns. rewrite (Hns r Hr) in Hs. done. }
  destruct (bedroom_counts_total np_argsort col Hperm Hstr)
    as (vc & bars & Hvc & Hbars).
  assert (bars ≡ₚ (λ k, (k, occurrences col k)) <$> unique (dropna col)) as Hp.
  { rewrite (sort_index_perm np_argsort Hperm _ _ Hbars).
    apply (value_counts_perm np_argsort Hperm _ _ Hvc). }
  assert (create_bedroom_analysis_chart np_argsort df
          = if empty df || negb (bool_decide ("bedrooms_numeric" ∈ columns df))
            then Ok None
            else match bars with [] => Err ValueError | _ => Ok (Some bars) end)
    as Hrun.
  { unfold create_bedroom_analysis_chart.
    destruct (empty df || _) eqn:He; [done|].
    apply orb_false_iff in He as [_ Hc]. apply negb_false_iff in Hc.
    apply bool_decide_eq_true in Hc. unfold getitem.
    rewrite decide_True by done. simpl. fold col. rewrite Hvc. simpl.
    rewrite Hbars. simpl. by destruct bars. }
  assert (bedrooms_known df = false → bars = []) as Hnone.
  { intros Hk. apply Permutation_nil_r. rewrite Hp.
    assert (dropna col = []) as ->; [|done].
    unfold dropna, col. clear -Hk. unfold bedrooms_known in Hk.
    induction (rows df) as [|r rs IH]; [done|].
    simpl in Hk. apply orb_false_iff in Hk as [Hr Hrs].
    apply negb_false_iff in Hr. rewrite fmap_cons, filter_cons.
    rewrite decide_False by (by rewrite Hr). by apply IH. }
  assert (bedrooms_known df = true → bars ≠ []) as Hsome.
  { intros Hk ->. apply Permutation_nil_l in Hp. symmetry in Hp.
    apply fmap_nil_inv in Hp.
    apply existsb_exists in Hk as (r & Hr%list_elem_of_In & Hna).
    apply negb_true_iff in Hna.
    assert (isin (unique (dropna col)) (cell "bedrooms_numeric" r) = true) as Hin.
    { apply isin_options. split; [done|]. apply isin_true.
      exists (cell "bedrooms_numeric" r).
      split; [by apply list_elem_of_fmap_2 | apply value_eqb_refl]. }
    by rewrite Hp in Hin. }
  rewrite Hrun. split; [by intros ->|]. split.
  - intros -> Hk. by rewrite Hnone.
  - intros -> Hk. specialize (Hsome Hk). destruct bars; [done | eauto].
Qed.

Lemma bedrooms_bars_eq :
  create_bedroom_analysis_chart insertion_argsort dataset_bedrooms
  = Ok (Some bedrooms_bars).
Proof. by_computation. Qed.

Lemma bedroom_chart_counts_witness :
  let col := cell "bedrooms_numeric" <$> rows dataset_bedrooms in
  bedrooms_bars.*1 ≡ₚ unique (dropna col)
  ∧ Forall (λ b, isna b.1 = false ∧ b.2 = occurrences col b.1 ∧ 0 < b.2)
           bedrooms_bars
  ∧ sum_list (bedrooms_bars.*2)
    = length (filter (λ r, isna (cell "bedrooms_numeric" r) = false)
                     (rows dataset_bedrooms)).
Proof.
  apply (bedroom_chart_counts insertion_argsort insertion_argsort_perm
           dataset_bedrooms bedrooms_bars).
  exact bedrooms_bars_eq.
Defined.

Lemma bedroom_chart_ascending_witness :
  StronglySorted value_lt (bedrooms_bars.*1).
Proof.
  apply (bedroom_chart_ascending insertion_argsort insertion_argsort_perm
           dataset_bedrooms bedrooms_bars); [exact bedrooms_bars_eq|].
  intros vc Hvc. vm_compute in Hvc. apply Ok_inj in Hvc as <-. by_computation.
Defined.

(** ** When the normalisation returns, and the dashboard renders *)

Lemma cell_zip_with_insert c c' (ls : list (gmap string value)) (col : list value) :
  c ≠ c' → length col = length ls →
  cell c' <$> zip_with (λ r v, <[c:=v]> r) ls col = cell c' <$> ls.
Proof.
  intros Hne. revert col. induction ls as [|l ls IH]; intros [|v col] Hlen;
    simpl in *; try done.
  rewrite cell_insert_ne by done. f_equal. apply IH. lia.
Qed.

Lemma getitem_setitem_ne df c c' col :
  c ≠ c' → length col = length (rows df) →
  getitem (setitem df c col) c' = getitem df c'.
Proof.
  intros Hne Hlen. unfold getitem, setitem. simpl.
  rewrite cell_zip_with_insert by done.
  destruct (decide (c' ∈ columns df)) as [Hc|Hc].
  - rewrite decide_True; [done|]. apply elem_of_union. by right.
  - rewrite decide_False; [done|].
    intros [Hk%elem_of_singleton|Hk]%elem_of_union; done.
Qed.

Lemma length_setitem df c col :
  length col = length (rows df) → length (rows (setitem df c col)) = length (rows df).
Proof.
  intros Hlen. unfold setitem. simpl. rewrite length_zip_with. lia.
Qed.

Lemma str_extract_not_numeric col :
  is_numeric_dtype (str_extract_neighborhood <$> col) = false.
Proof.
  unfold is_numeric_dtype.
  assert (existsb is_num (str_extract_neighborhood <$> col) = false) as ->;
    [|done].
  induction col as [|v col IH]; [done|]. rewrite fmap_cons. cbn [existsb].
  rewrite IH, orb_false_r. destruct v as [| |s]; try done.
  simpl. by destruct (re_search_neighborhood s).
Qed.

Lemma getitem_Err df c e : getitem df c = Err e → e = KeyError c ∧ c ∉ columns df.
Proof. unfold getitem. case_decide; [done|]. by intros [= <-]. Qed.

Section NormalisationReturns.

Variable py_float : string → option (option Q).
Variable pd_numeric : string → option Q.

(** The normalisation up to its last line, on listings that have the four
    other fields and prices with the [.str] accessor: [KeyError] when no
    listing has an address, [AttributeError] when the addresses are a column
    of numbers, a frame otherwise. *)
Lemma process_listings_data_address listings :
  listings ≠ [] →
  Forall (λ k, k ∈ columns (DataFrame_of_records listings))
         ["price"; "bedrooms"; "bathrooms"; "sqft"] →
  is_numeric_dtype (cell "price" <$> listings) = false →
  ("address" ∉ columns (DataFrame_of_records listings) →
   process_listings_data py_float pd_numeric listings = Err (KeyError "address"))
  ∧ ("address" ∈ columns (DataFrame_of_records listings) →
     is_numeric_dtype (cell "address" <$> listings) = true →
     process_listings_data py_float pd_numeric listings = Err AttributeError)
  ∧ ("address" ∈ columns (DataFrame_of_records listings) →
     is_numeric_dtype (cell "address" <$> listings) = false →
     ∃ df, process_listings_data py_float pd_numeric listings = Ok df).
Proof.
  intros Hne Hk Hp. unfold process_listings_data.
  destruct listings as [|l0 ls]; [done|].
  set (listings := l0 :: ls) in *. cbv zeta.
  set (df0 := DataFrame_of_records listings) in *.
  apply Forall_cons in Hk as [Hk1 Hk]. apply Forall_cons in Hk as [Hk2 Hk].
  apply Forall_cons in Hk as [Hk3 Hk]. apply Forall_cons in Hk as [Hk4 _].
  assert (∀ c, c ∈ columns df0 → getitem df0 c = Ok (cell c <$> listings)) as Hget.
  { intros c Hc. unfold getitem. by rewrite decide_True. }
  rewrite (Hget "price") by done. cbn [mbind result_bind].
  assert (∀ col, is_numeric_dtype col = false → str_accessor col = Ok col)
    as Hstr.
  { intros col Hcol. unfold str_accessor. by rewrite Hcol. }
  rewrite (Hstr _ Hp). cbn [mbind result_bind].
  set (P := astype_float_ignore py_float
              (str_replace_price <$> (cell "price" <$> listings))).
  assert (length P = length (rows df0)) as HlenP.
  { unfold P. by rewrite astype_float_ignore_length, !length_fmap. }
  set (df1 := setitem df0 "price_numeric" P).
  assert (length (rows df1) = length (rows df0)) as Hl1
    by by apply length_setitem.
  assert (getitem df1 "bedrooms" = Ok (cell "bedrooms" <$> listings)) as ->.
  { unfold df1. rewrite getitem_setitem_ne by done. by apply Hget. }
  cbn [mbind result_bind].
  set (B := to_numeric_coerce pd_numeric <$> (cell "bedrooms" <$> listings)).
  assert (length B = length (rows df1)) as HlenB.
  { unfold B. by rewrite Hl1, !length_fmap. }
  set (df2 := setitem df1 "bedrooms_numeric" B).
  assert (length (rows df2) = length (rows df0)) as Hl2.
  { unfold df2. rewrite length_setitem by done. done. }
  assert (getitem df2 "bathrooms" = Ok (cell "bathrooms" <$> listings)) as ->.
  { unfold df2, df1. rewrite !getitem_setitem_ne by done. by apply Hget. }
  cbn [mbind result_bind].
  set (T := to_numeric_coerce pd_numeric <$> (cell "bathrooms" <$> listings)).
  assert (length T = length (rows df2)) as HlenT.
  { unfold T. by rewrite Hl2, !length_fmap. }
  set (df3 := setitem df2 "bathrooms_numeric" T).
  assert (length (rows df3) = length (rows df0)) as Hl3.
  { unfold df3. rewrite length_setitem by done. done. }
  assert (getitem df3 "sqft" = Ok (cell "sqft" <$> listings)) as ->.
  { unfold df3, df2, df1. rewrite !getitem_setitem_ne by done. by apply Hget. }
  cbn [mbind result_bind].
  set (S := to_numeric_coerce pd_numeric <$> (cell "sqft" <$> listings)).
  assert (length S = length (rows df3)) as HlenS.
  { unfold S. by rewrite Hl3, !length_fmap. }
  set (df4 := setitem df3 "sqft_numeric" S).
  assert (getitem df4 "address" = getitem df0 "address") as ->.
  { unfold df4, df3, df2, df1. by rewrite !getitem_setitem_ne by done. }
  split; [|split].
  - intros Hc. unfold getitem. by rewrite decide_False.
  - intros Hc Ha. rewrite (Hget "address") by done. cbn [mbind result_bind].
    assert (str_accessor (cell "address" <$> listings) = Err AttributeError)
      as ->; [|done].
    unfold str_accessor. by rewrite Ha.
  - intros Hc Ha. rewrite (Hget "address") by done. cbn [mbind result_bind].
    rewrite (Hstr _ Ha). cbn [mbind result_bind].
    rewrite (Hstr _ (str_extract_not_numeric _)). cbn [mbind result_bind].
    eauto.
Qed.

Lemma existsb_is_str_not_numeric col :
  existsb is_str col = true → is_numeric_dtype col = false.
Proof.
  intros H. unfold is_numeric_dtype. rewrite H. apply andb_false_r.
Qed.

(** X25. On listings that are not empty, a normalisation that returns has
    found each of the fields [price], [bedrooms], [bathrooms], [sqft] and
    [address] in some listing, and neither the prices nor the addresses are
    a column with a number and no text.  It does return when each of the
    five fields is in some listing, some price is a text and some address is
    a text. *)
Theorem normalisation_returns_when listings :
  listings ≠ [] →
  ((∃ df, process_listings_data py_float pd_numeric listings = Ok df) →
   (∀ k, k ∈ required_keys → ∃ l, l ∈ listings ∧ is_Some (l !! k))
   ∧ is_numeric_dtype (cell "price" <$> listings) = false
   ∧ is_numeric_dtype (cell "address" <$> listings) = false)
  ∧ ((∀ k, k ∈ required_keys → ∃ l, l ∈ listings ∧ is_Some (l !! k)) →
     existsb is_str (cell "price" <$> listings) = true →
     existsb is_str (cell "address" <$> listings) = true →
     ∃ df, process_listings_data py_float pd_numeric listings = Ok df).
Proof.
  intros Hne. split.
  - intros [df H].
    destruct (process_listings_data_Ok py_float pd_numeric listings df Hne H)
      as (Hk & _ & _).
    split.
    { intros k Hin. eapply Forall_forall in Hk; [|done].
      by apply elem_of_columns_of_records. }
    unfold process_listings_data in H.
    destruct listings as [|l0 ls]; [done|]. cbv zeta in H.
    set (listings := l0 :: ls) in *.
    apply bind_Ok in H as (price & Hprice & H).
    apply getitem_Ok in Hprice as [_ ->].
    apply bind_Ok in H as (price_str & Hstr & H).
    split.
    { unfold str_accessor in Hstr.
      by destruct (is_numeric_dtype (cell "price" <$> _)). }
    apply str_accessor_Ok in Hstr as ->.
    apply bind_Ok in H as (bedrooms & Hb & H). apply getitem_Ok in Hb as [_ ->].
    apply bind_Ok in H as (bathrooms & Hb & H). apply getitem_Ok in Hb as [_ ->].
    apply bind_Ok in H as (sqft & Hb & H). apply getitem_Ok in Hb as [_ ->].
    apply bind_Ok in H as (address & Haddr & H).
    apply bind_Ok in H as (address_str & Hstr & _).
    do 3 rewrite getitem_setitem_ne in Haddr
      by (try done; by rewrite !length_fmap).
    rewrite getitem_setitem_ne in Haddr
      by (try done; by rewrite astype_float_ignore_length, !length_fmap).
    apply getitem_Ok in Haddr as [_ ->]. unfold str_accessor in Hstr.
    by destruct (is_numeric_dtype (cell "address" <$> _)).
  - intros Hk Hp Ha.
    assert (∀ k, k ∈ required_keys →
                 k ∈ columns (DataFrame_of_records listings)) as Hc.
    { intros k Hin. apply elem_of_columns_of_records. auto. }
    apply process_listings_data_address; try done.
    + repeat (apply Forall_cons; split;
                [apply Hc; unfold required_keys;
                 repeat (first [by left | right])|]).
      apply Forall_nil_2.
    + by apply existsb_is_str_not_numeric.
    + apply Hc. unfold required_keys. repeat (first [by left | right]).
    + by apply existsb_is_str_not_numeric.
Qed.

End NormalisationReturns.

Section Rendering.

Variable py_float : string → option (option Q).
Variable pd_numeric : string → option Q.
Variable np_argsort : list value → list nat.

(** X26. When every listing has a price text that [float] accepts once
    the symbols are stripped or no price text at all, some listing has a
    property type, and [argsort] returns each position of its array once:
    the options of the sidebar are computed, the filters return a view under
    any price range and any selections, the table sorted by price or by
    bedrooms is computed, and [create_bedroom_analysis_chart] returns no
    chart on a view without listings, raises [ValueError] on a view with
    listings of which none has a bedroom count, and returns a figure
    otherwise. *)
Theorem view_computations_outcome listings df price_range bedrooms
    property_types show_count sort_by :
  listings ≠ [] →
  process_listings_data py_float pd_numeric listings = Ok df →
  (∀ l s, l ∈ listings → cell "price" l = Str s →
          is_Some (py_float (re_sub_price s))) →
  (∃ l, l ∈ listings ∧ is_Some (l !! "property_type")) →
  (∀ a, np_argsort a ≡ₚ seq 0 (length a)) →
  sort_by ∈ ["price_numeric"; "bedrooms_numeric"] →
  (∃ options, bedroom_options df = Ok options)
  ∧ (∃ options, property_type_options df = Ok options)
  ∧ ∃ out, apply_filters df price_range bedrooms property_types = Ok out
      ∧ (rows out = [] →
         create_bedroom_analysis_chart np_argsort out = Ok None)
      ∧ (rows out ≠ [] → bedrooms_known out = false →
         create_bedroom_analysis_chart np_argsort out = Err ValueError)
      ∧ (rows out ≠ [] → bedrooms_known out = true →
         ∃ bars, create_bedroom_analysis_chart np_argsort out = Ok (Some bars))
      ∧ ∃ table, sort_and_display np_argsort out sort_by show_count = Ok table.
Proof.
  intros Hne H Hparse Hpt Hperm Hsort.
  destruct (process_listings_data_Ok py_float pd_numeric listings df Hne H)
    as (_ & Hcols & Hrows).
  assert (∀ c, c ∈ columns df
           ↔ c ∈ derived_columns ∨ ∃ l, l ∈ listings ∧ is_Some (l !! c)) as Hc.
  { intros c. rewrite Hcols, elem_of_union, elem_of_list_to_set.
    by rewrite elem_of_columns_of_records. }
  assert ("price_numeric" ∈ columns df) as Hcp.
  { apply Hc. left. unfold derived_columns. left. }
  assert ("bedrooms_numeric" ∈ columns df) as Hcb.
  { apply Hc. left. unfold derived_columns. right. left. }
  assert ("property_type" ∈ columns df) as Hct by (apply Hc; by right).
  assert (Forall (λ r, is_str (cell "bedrooms_numeric" r) = false) (rows df))
    as Hbs.
  { pose proof (normalised_bedrooms_not_text py_float pd_numeric listings df
                  Hne H) as Hb.
    by rewrite Forall_fmap in Hb. }
  assert (Forall (λ r, is_str (cell "price_numeric" r) = false) (rows df)) as Hps.
  { assert (Forall (λ v, is_str v = false) (cell "price_numeric" <$> rows df))
      as Hall; [|by rewrite Forall_fmap in Hall].
    rewrite Hrows, fmap_zip_with_normalised_price
      by by rewrite astype_float_ignore_length, !length_fmap.
    unfold astype_float_ignore. rewrite astype_float_all_parse.
    - simpl. apply Forall_fmap, Forall_fmap, Forall_fmap, Forall_forall.
      intros l Hl. simpl. destruct (cell "price" l) as [| |s]; try done. simpl.
      by destruct (py_float (re_sub_price s)) as [[?|]|].
    - apply Forall_fmap, Forall_fmap, Forall_forall. intros l Hin s Hs.
      simpl in Hs. destruct (cell "price" l) as [| |s'] eqn:Hcell; try done.
      simpl in Hs. injection Hs as <-. by eapply Hparse. }
  split; [|split].
  - unfold bedroom_options, getitem. rewrite decide_True by done. simpl.
    unfold sorted.
    assert (existsb is_str
              (unique (dropna (cell "bedrooms_numeric" <$> rows df))) = false)
      as ->; [|rewrite andb_false_r; eauto].
    apply not_true_is_false. intros (v & Hv%list_elem_of_In & Hs)%existsb_exists.
    eapply elem_of_sublist in Hv; [|apply unique_sublist].
    apply list_elem_of_filter in Hv as [_ Hv].
    apply list_elem_of_fmap in Hv as (r & -> & Hr).
    rewrite Forall_forall in Hbs. rewrite (Hbs r Hr) in Hs. done.
  - unfold property_type_options, getitem. rewrite decide_True by done.
    simpl. eauto.
  - destruct (apply_filters_total df price_range bedrooms property_types
                Hps Hcb Hct) as [out Hout].
    exists out. split; [done|].
    destruct (apply_filters_rows _ _ _ _ _ Hout) as [Hco Hro].
    assert (rows out `sublist_of` rows df) as Hsub.
    { rewrite Hro. apply sublist_filter. }
    assert (Forall (λ r, is_str (cell "price_numeric" r) = false) (rows out))
      as Hps'.
    { apply Forall_forall. intros r Hr. rewrite Forall_forall in Hps.
      apply Hps. by eapply elem_of_sublist. }
    assert (Forall (λ r, is_str (cell "bedrooms_numeric" r) = false) (rows out))
      as Hbs'.
    { apply Forall_forall. intros r Hr. rewrite Forall_forall in Hbs.
      apply Hbs. by eapply elem_of_sublist. }
    destruct (create_bedroom_analysis_chart_outcome np_argsort out Hperm Hbs')
      as (Hnone & Hraise & Hfig).
    assert ("bedrooms_numeric" ∈ columns out) as Hcb' by by rewrite Hco.
    assert (rows out ≠ [] →
            empty out
            || negb (bool_decide ("bedrooms_numeric" ∈ columns out)) = false)
      as Hshown.
    { intros Hrows'. apply orb_false_iff. split.
      - unfold empty. destruct (rows out); [done|].
        apply bool_decide_eq_false. intros He. rewrite He in Hcb'.
        by apply not_elem_of_empty in Hcb'.
      - apply negb_false_iff. by apply bool_decide_eq_true. }
    split; [|split; [|split]].
    + intros Hrows'. apply Hnone. unfold empty. by rewrite Hrows'.
    + intros Hrows' Hk. by apply Hraise; [apply Hshown|].
    + intros Hrows' Hk. by apply Hfig; [apply Hshown|].
    + unfold sort_and_display.
      assert (sort_by ∈ columns out) as Hin.
      { rewrite Hco. apply elem_of_cons in Hsort as [->|Hsort]; [done|].
        by apply list_elem_of_singleton in Hsort as ->. }
      rewrite decide_True by done.
      destruct (sort_values_total np_argsort Hperm out sort_by false Hin) as [t ->];
        [|simpl; eauto].
      assert (existsb is_str (cell sort_by <$> rows out) = false) as ->;
        [|by rewrite andb_false_r].
      apply not_true_is_false. intros (v & Hv & Hs)%existsb_exists.
      apply list_elem_of_In, list_elem_of_fmap in Hv as (r & -> & Hr).
      rewrite Forall_forall in Hps', Hbs'.
      apply elem_of_cons in Hsort as [->|Hsort].
      * rewrite (Hps' r Hr) in Hs. done.
      * apply list_elem_of_singleton in Hsort as ->.
        rewrite (Hbs' r Hr) in Hs. done.
Qed.

End Rendering.

Lemma normalisation_returns_when_witness :
  ((∃ df, process_listings_data decimal_float parse_decimal listings_sample
          = Ok df) →
   (∀ k, k ∈ required_keys → ∃ l, l ∈ listings_sample ∧ is_Some (l !! k))
   ∧ is_numeric_dtype (cell "price" <$> listings_sample) = false
   ∧ is_numeric_dtype (cell "address" <$> listings_sample) = false)
  ∧ ∃ df, process_listings_data decimal_float parse_decimal listings_sample
          = Ok df.
Proof.
  destruct (normalisation_returns_when decimal_float parse_decimal
              listings_sample) as [Hret Hwhen]; [discriminate|].
  split; [exact Hret|]. apply Hwhen.
  - intros k Hk.
    exists (listing (Str "12 Oak St, Springfield") (Str "$250,000") (Num 3)
                    (Num 2) (Num 1500) (Str "House")).
    split; [left|]. unfold required_keys in Hk.
    repeat (apply elem_of_cons in Hk as [->|Hk]; [by vm_compute; eauto|]).
    by apply elem_of_nil in Hk.
  - reflexivity.
  - reflexivity.
Defined.

Lemma view_computations_outcome_witness :
  (∃ options, bedroom_options dataset_gaps = Ok options)
  ∧ (∃ options, property_type_options dataset_gaps = Ok options)
  ∧ ∃ out, apply_filters dataset_gaps sample_range [Num 2] [Str "House"] = Ok out
      ∧ (rows out = [] →
         create_bedroom_analysis_chart insertion_argsort out = Ok None)
      ∧ (rows out ≠ [] → bedrooms_known out = false →
         create_bedroom_analysis_chart insertion_argsort out = Err ValueError)
      ∧ (rows out ≠ [] → bedrooms_known out = true →
         ∃ bars, create_bedroom_analysis_chart insertion_argsort out
                 = Ok (Some bars))
      ∧ ∃ table, sort_and_display insertion_argsort out "price_numeric" 20
                 = Ok table.
Proof.
  apply (view_computations_outcome decimal_float parse_decimal
           insertion_argsort listings_gaps dataset_gaps).
  - discriminate.
  - exact dataset_gaps_eq.
  - intros l s Hin Hs. unfold listings_gaps in Hin.
    repeat (apply elem_of_cons in Hin as [->|Hin]);
      [..|by apply elem_of_nil in Hin];
      vm_compute in Hs; injection Hs as <-; vm_compute; eauto.
  - eexists. split; [left|]. vm_compute. eauto.
  - apply insertion_argsort_perm.
  - left.
Defined.

(** ** The neighbourhood column and the place of the missing keys *)

Section NeighbourhoodColumn.

Variable py_float : string → option (option Q).
Variable pd_numeric : string → option Q.


End NeighbourhoodColumn.

(** C10. Under the contract of [argsort] (its result is a permutation of
    the positions of its array), the descending sort of a view by a column
    that does not mix numbers with text returns, and places every listing:
    the listings with a value for the key first, all of them and no other,
    then every listing whose value is missing, in the order of the view.
    The table is the first [show_count] rows of that, and in it no listing
    with a value comes after a listing without. *)
Theorem sort_places_nulls_last np_argsort df sort_by show_count :
  (∀ a, np_argsort a ≡ₚ seq 0 (length a)) →
  sort_by ∈ columns df →
  existsb is_num (cell sort_by <$> rows df)
  && existsb is_str (cell sort_by <$> rows df) = false →
  ∃ out known,
    sort_and_display np_argsort df sort_by show_count = Ok out
    ∧ known ≡ₚ filter (λ r, isna (cell sort_by r) = false) (rows df)
    ∧ rows out
      = take show_count
          (known ++ filter (λ r, isna (cell sort_by r) = true) (rows df))
    ∧ nulls_last sort_by (rows out).
Proof.
  intros Hperm Hc Hmix.
  destruct (sort_values_total np_argsort Hperm df sort_by false Hc Hmix)
    as [sorted Hs].
  assert (sort_and_display np_argsort df sort_by show_count
          = Ok (head sorted show_count)) as Hout.
  { unfold sort_and_display. rewrite decide_True by done. by rewrite Hs. }
  destruct (sort_values_descending_inv _ _ _ _ Hs)
    as (_ & ix & known & missing & Hix & Hrows & Hk & Hm).
  set (items := cell sort_by <$> rows df) in *.
  set (mask := isna <$> items) in *.
  set (n := length (rows df)) in *.
  assert (∀ (m : list bool),
            omap (λ j, rows df !! j) (select m (seq 0 n)) = select m (rows df))
    as Hsel.
  { intros m. symmetry. apply take_idx_omap, take_idx_Forall2.
    exact (select_Forall2 m [] (rows df)). }
  assert (missing = filter (λ r, isna (cell sort_by r) = true) (rows df)) as Hmiss.
  { apply take_idx_Forall2, take_idx_omap in Hm. rewrite Hm, Hsel.
    unfold mask, items. rewrite <- list_fmap_compose.
    apply (select_fmap (λ r, isna (cell sort_by r))). }
  assert (np_argsort (argsort_input items false)
          ≡ₚ seq 0 (length (reverse (select (negb <$> mask) (seq 0 n)))))
    as Hperm'.
  { rewrite Hperm. unfold argsort_input. fold mask. rewrite !length_reverse.
    rewrite (select_length _ items (seq 0 n)); [done|].
    unfold items, n. by rewrite length_fmap, length_seq. }
  assert (known ≡ₚ filter (λ r, isna (cell sort_by r) = false) (rows df))
    as Hknown.
  { apply take_idx_Forall2, take_idx_omap in Hk. rewrite Hk.
    assert (ix ≡ₚ reverse (select (negb <$> mask) (seq 0 n))) as Hixp.
    { apply (take_idx_perm _ _ _ Hperm' Hix). }
    rewrite reverse_Permutation, Hixp, reverse_Permutation, Hsel.
    unfold mask, items. rewrite <- !list_fmap_compose.
    rewrite (select_fmap (λ r, negb (isna (cell sort_by r)))).
    assert (filter (λ r, negb (isna (cell sort_by r)) = true) (rows df)
            = filter (λ r, isna (cell sort_by r) = false) (rows df)) as ->;
      [|done].
    apply list_filter_iff. intros r. apply negb_true_iff. }
  exists (head sorted show_count), known. split; [done|]. split; [done|].
  split.
  - simpl. by rewrite Hrows, Hmiss.
  - by apply (sort_and_display_nulls_last np_argsort df sort_by show_count).
Qed.



Lemma sort_places_nulls_last_witness :
  ∃ out known,
    sort_and_display insertion_argsort dataset_sample "price_numeric" 3 = Ok out
    ∧ known ≡ₚ filter (λ r, isna (cell "price_numeric" r) = false)
                      (rows dataset_sample)
    ∧ rows out
      = take 3 (known ++ filter (λ r, isna (cell "price_numeric" r) = true)
                                (rows dataset_sample))
    ∧ nulls_last "price_numeric" (rows out).
Proof.
  apply (sort_places_nulls_last insertion_argsort dataset_sample
           "price_numeric" 3).
  - apply insertion_argsort_perm.
  - by_computation.
  - reflexivity.
Defined.
